(** * Cherry OpenFlow controller: the L2 switching policy and the device manager

    A shallow embedding of two Go files of the controller:

    - package [l2switch] (the L2 forwarding policy: [ProcessPacket],
      [ProcessEvent] and their helpers), in [Module L2Switch];
    - [cherryd/internal/device/manager.go] (the per-connection device
      manager: the HELLO handler and the three send paths), in
      [Module Manager].

    Go functions that talk to the outside (the message factory, the
    device's [SendMessage], the logger) are embedded as actions over the
    list of everything the policy has emitted so far; a Go [error] is an
    [option Error], [None] being [nil]. *)

From Stdlib Require Import ZArith List String Bool Lia.
Import ListNotations.
Open Scope Z_scope.

(** ** A small action monad: state passing over the emitted trace *)

Section Actions.
Context {Ev : Type}.

Definition Act (A : Type) : Type := list Ev -> A * list Ev.

Definition ret {A} (a : A) : Act A := fun t => (a, t).

Definition bind {A B} (m : Act A) (k : A -> Act B) : Act B :=
  fun t => let (a, t') := m t in k a t'.

(** Append one event to the trace. *)
Definition emit (e : Ev) : Act unit := fun t => (tt, t ++ [e]).

(** Read the trace emitted so far. *)
Definition history : Act (list Ev) := fun t => (t, t).

(** [emits P Q m]: whatever the trace before, [m] only appends to it,
    every event it appends satisfies [P], and its result satisfies [Q]. *)
Definition emits (P : Ev -> Prop) {A} (Q : A -> Prop) (m : Act A) : Prop :=
  forall t, exists evs,
    snd (m t) = t ++ evs /\ Forall P evs /\ Q (fst (m t)).
End Actions.

Arguments Act Ev A : clear implicits.

Section Running.
Context {Ev : Type}.

(** [runs R m]: whatever the trace before, [m] only appends to it, and the
    events [evs] it appends and the value [a] it returns satisfy [R evs a]. *)
Definition runs {A} (R : list Ev -> A -> Prop) (m : Act Ev A) : Prop :=
  forall t, exists evs a, m t = (a, t ++ evs) /\ R evs a.

End Running.

(** [subseq l1 l2]: [l1] is [l2] with some elements left out, in order. *)
Inductive subseq {A : Type} : list A -> list A -> Prop :=
| subseq_nil : subseq [] []
| subseq_skip x l1 l2 : subseq l1 l2 -> subseq l1 (x :: l2)
| subseq_keep x l1 l2 : subseq l1 l2 -> subseq (x :: l1) (x :: l2).

Declare Scope act_scope.
Delimit Scope act_scope with act.

Notation "x <- m ;; k" := (bind m (fun x => k))
  (at level 61, m at next level, right associativity) : act_scope.
Notation "m ;; k" := (bind m (fun _ => k))
  (at level 61, right associativity) : act_scope.

(** [must m ;; k] is Go's [if err := m; err != nil { return err }; k]. *)
Notation "'must' m ;; k" :=
  (bind m (fun r => match r with Some err => ret (Some err) | None => k end))
  (at level 61, m at next level, right associativity) : act_scope.

(** [x <-! m ;; k] is Go's [x, err := m; if err != nil { return err }; k]. *)
Notation "x <-! m ;; k" :=
  (bind m (fun r => match r with inl err => ret (Some err) | inr x => k end))
  (at level 61, m at next level, right associativity) : act_scope.

(** ** Bytes and hardware addresses *)

(** [net.HardwareAddr] is a byte slice; a byte is a [Z] in [0, 256). *)
Definition HardwareAddr := list Z.

(** Go's [bytes.Compare]: lexicographic comparison, -1, 0 or +1. *)
Fixpoint bytes_Compare (a b : list Z) : Z :=
  match a, b with
  | [], [] => 0
  | [], _ :: _ => -1
  | _ :: _, [] => 1
  | x :: a', y :: b' =>
      match x ?= y with
      | Lt => -1
      | Gt => 1
      | Eq => bytes_Compare a' b'
      end
  end.

Module L2Switch.

(** ** The data the policy handles *)

(** [network.Device]: its ID and the table forwarding rules go in. *)
Record Device := { Device_ID : Z; Device_FlowTableID : Z }.

(** [network.Port]: a port number on a device. *)
Record Port := { Port_Device : Device; Port_Number : Z }.

(** [network.Node]: a learned host, its MAC and the port it sits behind. *)
Record Node := { Node_MAC : HardwareAddr; Node_Port : Port }.

(** [protocol.Ethernet]. *)
Record Ethernet := {
  SrcMAC : HardwareAddr;
  DstMAC : HardwareAddr;
  EtherType : Z;
  Payload : list Z
}.

(** [openflow.PortStatus], as far as [ProcessEvent] reads it. *)
Record PortStatus := {
  Status_Number : Z;
  Status_IsPortDown : bool;
  Status_IsLinkDown : bool
}.

(** Go errors the policy passes on or builds. *)
Inductive Error :=
| Err_External (msg : string)          (* raised by a collaborator *)
| Err_FailedSwitch (cause : Error)     (* "failed to switch a packet: %v" *)
| Err_PortNotFound (number : Z) (device : Z). (* "failed to find a port %v on %v" *)

(** *** OpenFlow objects built through the factory *)

Inductive InPort := InPort_new | InPort_value (n : Z) | InPort_controller.
Inductive OutPort := OutPort_new | OutPort_value (n : Z) | OutPort_flood.

Definition NewInPort : InPort := InPort_new.
Definition InPort_SetValue (_ : InPort) (n : Z) : InPort := InPort_value n.
Definition InPort_SetController (_ : InPort) : InPort := InPort_controller.

Definition NewOutPort : OutPort := OutPort_new.
Definition OutPort_SetValue (_ : OutPort) (n : Z) : OutPort := OutPort_value n.
Definition OutPort_SetFlood (_ : OutPort) : OutPort := OutPort_flood.

(** An action lists the output ports set on it, in call order. *)
Record Action := { Action_OutPorts : list OutPort }.

Record Instruction := { Instruction_Apply : option Action }.

(** A match: an unset field is a wildcard. *)
Record Match := {
  Match_InPort : option InPort;
  Match_EtherType : option Z;
  Match_SrcMAC : option HardwareAddr;
  Match_DstMAC : option HardwareAddr
}.

Inductive FlowCommand := FlowAdd | FlowModify | FlowDelete.

Record FlowMod := {
  FlowMod_Command : FlowCommand;
  FlowMod_Cookie : Z;
  FlowMod_CookieMask : Z;
  FlowMod_TableID : Z;
  FlowMod_IdleTimeout : Z;
  FlowMod_Priority : Z;
  FlowMod_Match : option Match;
  FlowMod_Instruction : option Instruction
}.

Record PacketOut := {
  PacketOut_InPort : option InPort;
  PacketOut_Action : option Action;
  PacketOut_Data : list Z
}.

Inductive Message :=
| Msg_PacketOut (m : PacketOut)
| Msg_FlowMod (m : FlowMod).

(** The objects package [openflow]'s [Factory] hands out; the package is
    not among the sources, so a fresh object is taken to have nothing set. *)

(** Modelled from the spec: a fresh action of [Factory.NewAction], with no
    output port yet. *)
Definition fresh_Action : Action := {| Action_OutPorts := [] |}.

(** Modelled from the spec: a fresh instruction of
    [Factory.NewInstruction], applying nothing yet. *)
Definition fresh_Instruction : Instruction := {| Instruction_Apply := None |}.

(** Modelled from the spec: a fresh match of [Factory.NewMatch]; with no
    field set it is the wildcard match (as [removeAllFlows] uses it). *)
Definition fresh_Match : Match :=
  {| Match_InPort := None; Match_EtherType := None;
     Match_SrcMAC := None; Match_DstMAC := None |}.

(** Modelled from the spec: a fresh flow-mod of [Factory.NewFlowMod] for a
    command; its cookie is 0 (most significant bit 0, as the rules the
    controller installs have it) and it has no mask, table, timeout,
    priority, match or instruction yet. *)
Definition fresh_FlowMod (cmd : FlowCommand) : FlowMod :=
  {| FlowMod_Command := cmd; FlowMod_Cookie := 0; FlowMod_CookieMask := 0;
     FlowMod_TableID := 0; FlowMod_IdleTimeout := 0; FlowMod_Priority := 0;
     FlowMod_Match := None; FlowMod_Instruction := None |}.

(** Modelled from the spec: a fresh packet-out of [Factory.NewPacketOut],
    with no in-port, action or data yet. *)
Definition fresh_PacketOut : PacketOut :=
  {| PacketOut_InPort := None; PacketOut_Action := None; PacketOut_Data := [] |}.

(** Setters: each overwrites its field ([SetOutPort] adds a port). *)
Definition Action_SetOutPort (a : Action) (p : OutPort) : Action :=
  {| Action_OutPorts := Action_OutPorts a ++ [p] |}.
Definition Instruction_ApplyAction (_ : Instruction) (a : Action) : Instruction :=
  {| Instruction_Apply := Some a |}.

Definition Match_SetInPort (m : Match) (p : InPort) : Match :=
  {| Match_InPort := Some p; Match_EtherType := Match_EtherType m;
     Match_SrcMAC := Match_SrcMAC m; Match_DstMAC := Match_DstMAC m |}.
Definition Match_SetEtherType (m : Match) (t : Z) : Match :=
  {| Match_InPort := Match_InPort m; Match_EtherType := Some t;
     Match_SrcMAC := Match_SrcMAC m; Match_DstMAC := Match_DstMAC m |}.
Definition Match_SetSrcMAC (m : Match) (mac : HardwareAddr) : Match :=
  {| Match_InPort := Match_InPort m; Match_EtherType := Match_EtherType m;
     Match_SrcMAC := Some mac; Match_DstMAC := Match_DstMAC m |}.
Definition Match_SetDstMAC (m : Match) (mac : HardwareAddr) : Match :=
  {| Match_InPort := Match_InPort m; Match_EtherType := Match_EtherType m;
     Match_SrcMAC := Match_SrcMAC m; Match_DstMAC := Some mac |}.

Definition FlowMod_SetCookieMask (f : FlowMod) (mask : Z) : FlowMod :=
  {| FlowMod_Command := FlowMod_Command f; FlowMod_Cookie := FlowMod_Cookie f;
     FlowMod_CookieMask := mask; FlowMod_TableID := FlowMod_TableID f;
     FlowMod_IdleTimeout := FlowMod_IdleTimeout f;
     FlowMod_Priority := FlowMod_Priority f; FlowMod_Match := FlowMod_Match f;
     FlowMod_Instruction := FlowMod_Instruction f |}.
Definition FlowMod_SetTableID (f : FlowMod) (id : Z) : FlowMod :=
  {| FlowMod_Command := FlowMod_Command f; FlowMod_Cookie := FlowMod_Cookie f;
     FlowMod_CookieMask := FlowMod_CookieMask f; FlowMod_TableID := id;
     FlowMod_IdleTimeout := FlowMod_IdleTimeout f;
     FlowMod_Priority := FlowMod_Priority f; FlowMod_Match := FlowMod_Match f;
     FlowMod_Instruction := FlowMod_Instruction f |}.
Definition FlowMod_SetIdleTimeout (f : FlowMod) (s : Z) : FlowMod :=
  {| FlowMod_Command := FlowMod_Command f; FlowMod_Cookie := FlowMod_Cookie f;
     FlowMod_CookieMask := FlowMod_CookieMask f;
     FlowMod_TableID := FlowMod_TableID f; FlowMod_IdleTimeout := s;
     FlowMod_Priority := FlowMod_Priority f; FlowMod_Match := FlowMod_Match f;
     FlowMod_Instruction := FlowMod_Instruction f |}.
Definition FlowMod_SetPriority (f : FlowMod) (p : Z) : FlowMod :=
  {| FlowMod_Command := FlowMod_Command f; FlowMod_Cookie := FlowMod_Cookie f;
     FlowMod_CookieMask := FlowMod_CookieMask f;
     FlowMod_TableID := FlowMod_TableID f;
     FlowMod_IdleTimeout := FlowMod_IdleTimeout f; FlowMod_Priority := p;
     FlowMod_Match := FlowMod_Match f;
     FlowMod_Instruction := FlowMod_Instruction f |}.
Definition FlowMod_SetFlowMatch (f : FlowMod) (m : Match) : FlowMod :=
  {| FlowMod_Command := FlowMod_Command f; FlowMod_Cookie := FlowMod_Cookie f;
     FlowMod_CookieMask := FlowMod_CookieMask f;
     FlowMod_TableID := FlowMod_TableID f;
     FlowMod_IdleTimeout := FlowMod_IdleTimeout f;
     FlowMod_Priority := FlowMod_Priority f; FlowMod_Match := Some m;
     FlowMod_Instruction := FlowMod_Instruction f |}.
Definition FlowMod_SetFlowInstruction (f : FlowMod) (i : Instruction) : FlowMod :=
  {| FlowMod_Command := FlowMod_Command f; FlowMod_Cookie := FlowMod_Cookie f;
     FlowMod_CookieMask := FlowMod_CookieMask f;
     FlowMod_TableID := FlowMod_TableID f;
     FlowMod_IdleTimeout := FlowMod_IdleTimeout f;
     FlowMod_Priority := FlowMod_Priority f; FlowMod_Match := FlowMod_Match f;
     FlowMod_Instruction := Some i |}.

Definition PacketOut_SetInPort (o : PacketOut) (p : InPort) : PacketOut :=
  {| PacketOut_InPort := Some p; PacketOut_Action := PacketOut_Action o;
     PacketOut_Data := PacketOut_Data o |}.
Definition PacketOut_SetAction (o : PacketOut) (a : Action) : PacketOut :=
  {| PacketOut_InPort := PacketOut_InPort o; PacketOut_Action := Some a;
     PacketOut_Data := PacketOut_Data o |}.
Definition PacketOut_SetData (o : PacketOut) (d : list Z) : PacketOut :=
  {| PacketOut_InPort := PacketOut_InPort o;
     PacketOut_Action := PacketOut_Action o; PacketOut_Data := d |}.

(** *** What the policy emits *)

(** The lines the policy writes to its logger, by format string. *)
Inductive LogMsg :=
| Log_Broadcasting (dst : HardwareAddr)
| Log_NotFoundPath (src dst : HardwareAddr)
| Log_CleaningUp (p : Port)
| Log_RemovingNode (mac : HardwareAddr)
| Log_FailedRemoveNode (mac : HardwareAddr) (e : Error)
| Log_RemovingAll
| Log_FailedRemoveOn (device : Z) (e : Error)
| Log_RemovingNodeOn (mac : HardwareAddr) (device : Z)
| Log_RemovingOn (device : Z).

(** An event is a log line or a call of a device's [SendMessage], with
    what the call returned. *)
Inductive Event :=
| Ev_Debug (m : LogMsg)
| Ev_Err (m : LogMsg)
| Ev_Send (d : Device) (m : Message) (r : option Error).

Definition Trace := list Event.

Inductive FactoryCall :=
| Call_NewAction | Call_NewPacketOut | Call_NewMatch
| Call_NewInstruction | Call_NewFlowMod.

(** The collaborators of one handler call: the Ethernet encoder, the
    topology finder, and whether a factory call or a send fails, which may
    depend on everything emitted before it. *)
Record World := {
  MarshalBinary : Ethernet -> Error + list Z;
  Finder_Node : HardwareAddr -> option Node;
  Finder_Path : Z -> Z -> option (list (Port * Port));
  Finder_IsEdge : Port -> bool;
  Finder_Devices : list Device;
  Port_Nodes : Port -> list Node;
  Device_Port : Device -> Z -> option Port;
  Factory_fails : Trace -> FactoryCall -> option Error;
  Send_fails : Trace -> Device -> Message -> option Error
}.

(** ** The policy *)

Local Open Scope act_scope.

Section Policy.
Variable w : World.

Definition log_Debug (m : LogMsg) : Act Event unit := emit (Ev_Debug m).
Definition log_Err (m : LogMsg) : Act Event unit := emit (Ev_Err m).

(** A factory constructor: fails as the world says, else hands out the
    fresh object. *)
Definition factory_new {A} (c : FactoryCall) (fresh : A) : Act Event (Error + A) :=
  t <- history ;;
  match Factory_fails w t c with
  | Some e => ret (inl e)
  | None => ret (inr fresh)
  end.

Definition NewAction := factory_new Call_NewAction fresh_Action.
Definition NewPacketOut := factory_new Call_NewPacketOut fresh_PacketOut.
Definition NewMatch := factory_new Call_NewMatch fresh_Match.
Definition NewInstruction := factory_new Call_NewInstruction fresh_Instruction.
Definition NewFlowMod (cmd : FlowCommand) :=
  factory_new Call_NewFlowMod (fresh_FlowMod cmd).

(** [d.SendMessage(m)]: the call is recorded with its outcome. *)
Definition SendMessage (d : Device) (m : Message) : Act Event (option Error) :=
  t <- history ;;
  let r := Send_fails w t d m in
  emit (Ev_Send d m r) ;;
  ret r.

Definition flood (ingress : Port) (packet : list Z) : Act Event (option Error) :=
  let inPort := InPort_SetValue NewInPort (Port_Number ingress) in
  let outPort := OutPort_SetFlood NewOutPort in
  action <-! NewAction ;;
  let action := Action_SetOutPort action outPort in
  out <-! NewPacketOut ;;
  let out := PacketOut_SetInPort out inPort in
  let out := PacketOut_SetAction out action in
  let out := PacketOut_SetData out packet in
  SendMessage (Port_Device ingress) (Msg_PacketOut out).

Definition packetout (egress : Port) (packet : list Z) : Act Event (option Error) :=
  let inPort := InPort_SetController NewInPort in
  let outPort := OutPort_SetValue NewOutPort (Port_Number egress) in
  action <-! NewAction ;;
  let action := Action_SetOutPort action outPort in
  out <-! NewPacketOut ;;
  let out := PacketOut_SetInPort out inPort in
  let out := PacketOut_SetAction out action in
  let out := PacketOut_SetData out packet in
  SendMessage (Port_Device egress) (Msg_PacketOut out).

Definition isBroadcast (eth : Ethernet) : bool :=
  bytes_Compare (DstMAC eth) [0xFF; 0xFF; 0xFF; 0xFF; 0xFF; 0xFF] =? 0.

Record flowParam := {
  device : Device;
  etherType : Z;
  inPort : Z;
  outPort : Z;
  srcMAC : HardwareAddr;
  dstMAC : HardwareAddr
}.

Definition installFlow (p : flowParam) : Act Event (option Error) :=
  let inPort := InPort_SetValue NewInPort (inPort p) in
  match_ <-! NewMatch ;;
  let match_ := Match_SetInPort match_ inPort in
  let match_ := Match_SetEtherType match_ (etherType p) in
  let match_ := Match_SetSrcMAC match_ (srcMAC p) in
  let match_ := Match_SetDstMAC match_ (dstMAC p) in
  let outPort := OutPort_SetValue NewOutPort (outPort p) in
  action <-! NewAction ;;
  let action := Action_SetOutPort action outPort in
  inst <-! NewInstruction ;;
  let inst := Instruction_ApplyAction inst action in
  flow <-! NewFlowMod FlowAdd ;;
  let flow := FlowMod_SetTableID flow (Device_FlowTableID (device p)) in
  let flow := FlowMod_SetIdleTimeout flow 30 in
  let flow := FlowMod_SetPriority flow 10 in
  let flow := FlowMod_SetFlowMatch flow match_ in
  let flow := FlowMod_SetFlowInstruction flow inst in
  SendMessage (device p) (Msg_FlowMod flow).

Definition setFlowRule (p : flowParam) : Act Event (option Error) :=
  (* Forward *)
  must installFlow p ;;
  (* Backward *)
  installFlow p.

Record switchParam := {
  ethernet : Ethernet;
  ingress : Port;
  egress : Port;
  rawPacket : list Z
}.

(** The loop of [switching] over the path, threading [inPort]; it
    returns the error that ends it, or the in-port for the last rule. *)
Fixpoint switching_loop (p : switchParam) (path : list (Port * Port))
    (inPort : Z) : Act Event (Error + Z) :=
  match path with
  | [] => ret (inr inPort)
  | v :: rest =>
      let param :=
        {| device := Port_Device (fst v);
           etherType := EtherType (ethernet p);
           inPort := inPort;
           outPort := Port_Number (fst v);
           srcMAC := SrcMAC (ethernet p);
           dstMAC := DstMAC (ethernet p) |} in
      r <- setFlowRule param ;;
      match r with
      | Some err => ret (inl err)
      | None => switching_loop p rest (Port_Number (snd v))
      end
  end.

Definition switching (p : switchParam) : Act Event (option Error) :=
  let path := Finder_Path w (Device_ID (Port_Device (ingress p)))
                            (Device_ID (Port_Device (egress p))) in
  match path with
  | None | Some [] =>
      log_Debug (Log_NotFoundPath (SrcMAC (ethernet p)) (DstMAC (ethernet p))) ;;
      ret None
  | Some path =>
      inPort <-! switching_loop p path (Port_Number (ingress p)) ;;
      let param :=
        {| device := Port_Device (egress p);
           etherType := EtherType (ethernet p);
           inPort := inPort;
           outPort := Port_Number (egress p);
           srcMAC := SrcMAC (ethernet p);
           dstMAC := DstMAC (ethernet p) |} in
      must setFlowRule param ;;
      packetout (egress p) (rawPacket p)
  end.

Definition localSwitching (p : switchParam) : Act Event (option Error) :=
  let param :=
    {| device := Port_Device (ingress p);
       etherType := EtherType (ethernet p);
       inPort := Port_Number (ingress p);
       outPort := Port_Number (egress p);
       srcMAC := SrcMAC (ethernet p);
       dstMAC := DstMAC (ethernet p) |} in
  must setFlowRule param ;;
  packetout (egress p) (rawPacket p).

(** [ProcessPacket] returns the pair [(drop, err)]. *)
Definition ProcessPacket (eth : Ethernet) (ingress : Port)
    : Act Event (bool * option Error) :=
  match MarshalBinary w eth with
  | inl err => ret (false, Some err)
  | inr packet =>
      let dstNode := Finder_Node w (DstMAC eth) in
      (* Unknown node or broadcast request? *)
      match dstNode, isBroadcast eth with
      | Some dstNode, false =>
          let param :=
            {| ethernet := eth; ingress := ingress;
               egress := Node_Port dstNode; rawPacket := packet |} in
          (* Two nodes on a same switch device? *)
          err <- (if Device_ID (Port_Device ingress)
                       =? Device_ID (Port_Device (Node_Port dstNode))
                  then localSwitching param
                  else switching param) ;;
          match err with
          | Some err => ret (false, Some (Err_FailedSwitch err))
          | None => ret (true, None)
          end
      | _, _ =>
          log_Debug (Log_Broadcasting (DstMAC eth)) ;;
          err <- flood ingress packet ;;
          ret (true, err)
      end
  end.

Definition removeFlow (d : Device) (match_ : Match) : Act Event (option Error) :=
  log_Debug (Log_RemovingOn (Device_ID d)) ;;
  flowmod <-! NewFlowMod FlowDelete ;;
  let flowmod := FlowMod_SetCookieMask flowmod (Z.shiftl 0x1 63) in
  let flowmod := FlowMod_SetTableID flowmod 0xFF in
  let flowmod := FlowMod_SetFlowMatch flowmod match_ in
  SendMessage d (Msg_FlowMod flowmod).

Fixpoint removeFlowRules_loop (devices : list Device) (mac : HardwareAddr)
    : Act Event (option Error) :=
  match devices with
  | [] => ret None
  | d :: rest =>
      log_Debug (Log_RemovingNodeOn mac (Device_ID d)) ;;
      match_ <-! NewMatch ;;
      let match_ := Match_SetSrcMAC match_ mac in
      must removeFlow d match_ ;;
      match_ <-! NewMatch ;;
      let match_ := Match_SetDstMAC match_ mac in
      must removeFlow d match_ ;;
      removeFlowRules_loop rest mac
  end.

Definition removeFlowRules (mac : HardwareAddr) : Act Event (option Error) :=
  removeFlowRules_loop (Finder_Devices w) mac.

Fixpoint removeAllFlows_loop (devices : list Device) (match_ : Match)
    : Act Event unit :=
  match devices with
  | [] => ret tt
  | d :: rest =>
      r <- removeFlow d match_ ;;
      match r with
      | Some err => log_Err (Log_FailedRemoveOn (Device_ID d) err)
      | None => ret tt
      end ;;
      removeAllFlows_loop rest match_
  end.

Definition removeAllFlows : Act Event (option Error) :=
  log_Debug Log_RemovingAll ;;
  match_ <-! NewMatch ;;
  removeAllFlows_loop (Finder_Devices w) match_ ;;
  ret None.

Fixpoint cleanup_loop (nodes : list Node) : Act Event unit :=
  match nodes with
  | [] => ret tt
  | n :: rest =>
      log_Debug (Log_RemovingNode (Node_MAC n)) ;;
      r <- removeFlowRules (Node_MAC n) ;;
      match r with
      | Some err => log_Err (Log_FailedRemoveNode (Node_MAC n) err)
      | None => ret tt
      end ;;
      cleanup_loop rest
  end.

Definition cleanup (port : Port) : Act Event (option Error) :=
  log_Debug (Log_CleaningUp port) ;;
  if Finder_IsEdge w port then removeAllFlows
  else
    cleanup_loop (Port_Nodes w port) ;;
    ret None.

Definition ProcessEvent (device : Device) (status : PortStatus)
    : Act Event (option Error) :=
  if Status_IsPortDown status || Status_IsLinkDown status then
    match Device_Port w device (Status_Number status) with
    | None => ret (Some (Err_PortNotFound (Status_Number status) (Device_ID device)))
    | Some port => cleanup port
    end
  else ret None.

End Policy.

(** *** Reading a trace *)

(** The messages handed to [SendMessage], in order, with their device. *)
Fixpoint sent (t : Trace) : list (Device * Message) :=
  match t with
  | [] => []
  | Ev_Send d m _ :: t' => (d, m) :: sent t'
  | _ :: t' => sent t'
  end.

(** The flow-mods among them. *)
Fixpoint flowmods (l : list (Device * Message)) : list (Device * FlowMod) :=
  match l with
  | [] => []
  | (d, Msg_FlowMod f) :: l' => (d, f) :: flowmods l'
  | _ :: l' => flowmods l'
  end.

(** No factory call fails. *)
Definition factory_ok (w : World) : Prop :=
  forall t c, Factory_fails w t c = None.

(** No send fails. *)
Definition sends_ok (w : World) : Prop :=
  forall t d m, Send_fails w t d m = None.

(** *** The messages the policy is expected to build *)

(** The ADD flow-mod of [installFlow] for [p]. *)
Definition forwardFlow (p : flowParam) : FlowMod :=
  {| FlowMod_Command := FlowAdd;
     FlowMod_Cookie := 0;
     FlowMod_CookieMask := 0;
     FlowMod_TableID := Device_FlowTableID (device p);
     FlowMod_IdleTimeout := 30;
     FlowMod_Priority := 10;
     FlowMod_Match :=
       Some {| Match_InPort := Some (InPort_value (inPort p));
               Match_EtherType := Some (etherType p);
               Match_SrcMAC := Some (srcMAC p);
               Match_DstMAC := Some (dstMAC p) |};
     FlowMod_Instruction :=
       Some {| Instruction_Apply :=
                 Some {| Action_OutPorts := [OutPort_value (outPort p)] |} |} |}.

(** The parameters of the opposite direction: addresses and ports swapped. *)
Definition reverseParam (p : flowParam) : flowParam :=
  {| device := device p; etherType := etherType p;
     inPort := outPort p; outPort := inPort p;
     srcMAC := dstMAC p; dstMAC := srcMAC p |}.

(** The packet-out of [flood]. *)
Definition floodOut (ingress : Port) (packet : list Z) : PacketOut :=
  {| PacketOut_InPort := Some (InPort_value (Port_Number ingress));
     PacketOut_Action := Some {| Action_OutPorts := [OutPort_flood] |};
     PacketOut_Data := packet |}.

(** The packet-out of [packetout]. *)
Definition directOut (egress : Port) (packet : list Z) : PacketOut :=
  {| PacketOut_InPort := Some InPort_controller;
     PacketOut_Action :=
       Some {| Action_OutPorts := [OutPort_value (Port_Number egress)] |};
     PacketOut_Data := packet |}.

(** The DELETE flow-mod of [removeFlow] for a match. *)
Definition deleteFlow (m : Match) : FlowMod :=
  {| FlowMod_Command := FlowDelete;
     FlowMod_Cookie := 0;
     FlowMod_CookieMask := 2 ^ 63;
     FlowMod_TableID := 255;
     FlowMod_IdleTimeout := 0;
     FlowMod_Priority := 0;
     FlowMod_Match := Some m;
     FlowMod_Instruction := None |}.

(** What the cleanup path may emit: log lines, and sends of the DELETE
    flow-mod of [removeFlow] for some match. *)
Definition cleanup_event (ev : Event) : Prop :=
  match ev with
  | Ev_Send _ m _ => exists match_, m = Msg_FlowMod (deleteFlow match_)
  | _ => True
  end.

Definition matchSrc (mac : HardwareAddr) : Match :=
  {| Match_InPort := None; Match_EtherType := None;
     Match_SrcMAC := Some mac; Match_DstMAC := None |}.

Definition matchDst (mac : HardwareAddr) : Match :=
  {| Match_InPort := None; Match_EtherType := None;
     Match_SrcMAC := None; Match_DstMAC := Some mac |}.

(** The two DELETEs of [removeFlowRules] for one MAC on each device. *)
Definition node_deletes (mac : HardwareAddr) (ds : list Device)
    : list (Device * Message) :=
  flat_map (fun d => [(d, Msg_FlowMod (deleteFlow (matchSrc mac)));
                      (d, Msg_FlowMod (deleteFlow (matchDst mac)))]) ds.

(** Modelled from the spec: how a switch selects rules for a DELETE that
    carries a cookie mask (the switch is not part of the sources): a rule
    is selected only if its cookie agrees with the flow-mod's cookie on
    every bit of the mask. *)
Definition cookie_selects (f : FlowMod) (rule_cookie : Z) : bool :=
  Z.land rule_cookie (FlowMod_CookieMask f)
  =? Z.land (FlowMod_Cookie f) (FlowMod_CookieMask f).

(** *** Small topologies to run the policy on *)

Module Examples.

Definition broadcast : HardwareAddr := [255; 255; 255; 255; 255; 255].
Definition macS : HardwareAddr := [0; 0; 0; 0; 0; 1].
Definition macD : HardwareAddr := [0; 0; 0; 0; 0; 2].

Definition devA : Device := {| Device_ID := 1; Device_FlowTableID := 0 |}.
Definition devB : Device := {| Device_ID := 2; Device_FlowTableID := 0 |}.

Definition port (d : Device) (n : Z) : Port :=
  {| Port_Device := d; Port_Number := n |}.

Definition eth (dst : HardwareAddr) : Ethernet :=
  {| SrcMAC := macS; DstMAC := dst; EtherType := 0x0800; Payload := [1; 2; 3] |}.

Definition marshal (e : Ethernet) : Error + list Z :=
  inr (DstMAC e ++ SrcMAC e
       ++ [Z.shiftr (EtherType e) 8; Z.land (EtherType e) 255] ++ Payload e).

(** Host D sits behind port 5 of [home]; switches A and B are known and
    no path links them; [edge] says whether ports are inter-switch
    links; [bad] is the device whose sends fail, if any. *)
Definition world (home : Device) (edge : bool) (bad : option Z) : World :=
  {| MarshalBinary := marshal;
     Finder_Node := fun mac =>
       if bytes_Compare mac macD =? 0
       then Some {| Node_MAC := macD; Node_Port := port home 5 |}
       else None;
     Finder_Path := fun _ _ => None;
     Finder_IsEdge := fun _ => edge;
     Finder_Devices := [devA; devB];
     Port_Nodes := fun p =>
       if Port_Number p =? 5
       then [{| Node_MAC := macD; Node_Port := p |}] else [];
     Device_Port := fun d n => Some (port d n);
     Factory_fails := fun _ _ => None;
     Send_fails := fun _ d _ =>
       match bad with
       | Some id => if Device_ID d =? id
                    then Some (Err_External "write failed") else None
       | None => None
       end |}.

End Examples.

(** *** How a handler behaves when a send fails *)

(** Every send of [evs] returned nil. *)
Definition clean (evs : Trace) : Prop :=
  forall d m r, In (Ev_Send d m r) evs -> r = None.

(** [halts evs r]: either no send of [evs] failed, or exactly the last
    event is a failed send and [r] is its error. *)
Definition halts (evs : Trace) (r : option Error) : Prop :=
  clean evs \/
  exists evs' d m e,
    evs = evs' ++ [Ev_Send d m (Some e)] /\ clean evs' /\ r = Some e.

(** [follows plan evs r]: the handler went through the messages of [plan]
    in order, stopped at its first failed send, and returned nil only
    after the whole plan was sent. *)
Definition follows (plan : list (Device * Message)) (evs : Trace)
    (r : option Error) : Prop :=
  halts evs r /\
  (exists rest, plan = sent evs ++ rest) /\
  (r = None -> sent evs = plan).

(** [stops plan evs r]: the handler sent the messages of [plan] in order
    and returned nil with none failed, or its last event is the send that
    failed, with the returned error, and the rest of the plan was not
    sent. *)
Definition stops (plan : list (Device * Message)) (evs : Trace)
    (r : option Error) : Prop :=
  match r with
  | None => clean evs /\ sent evs = plan
  | Some e =>
      exists evs' d m rest,
        evs = evs' ++ [Ev_Send d m (Some e)] /\
        clean evs' /\ plan = sent evs ++ rest
  end.

(** [node_run devices n seg]: [seg] is what the loop of [cleanup] emits
    for node [n]: the line that announces the node, a run of
    [removeFlowRules] that stops at its first failed DELETE, and the error
    line when it failed. *)
Definition node_run (devices : list Device) (n : Node) (seg : Trace) : Prop :=
  exists evs r,
    seg = Ev_Debug (Log_RemovingNode (Node_MAC n)) :: evs
          ++ match r with
             | Some e => [Ev_Err (Log_FailedRemoveNode (Node_MAC n) e)]
             | None => []
             end /\
    stops (node_deletes (Node_MAC n) devices) evs r.

(** Whether [ProcessPacket] floods the packet: the destination is unknown
    or the broadcast address. *)
Definition floods (w : World) (eth : Ethernet) : bool :=
  match Finder_Node w (DstMAC eth), isBroadcast eth with
  | Some _, false => false
  | _, _ => true
  end.

(** The error a loop that returns [(value, error)] ends with. *)
Definition err_of {A} (r : Error + A) : option Error :=
  match r with inl e => Some e | inr _ => None end.

(** *** The messages of a packet-in, as a function of the topology *)

(** The rule for one device on the way: the packet's ether-type and
    addresses, from [inPort] to [outPort]. *)
Definition hop_param (eth : Ethernet) (d : Device) (inPort outPort : Z)
    : flowParam :=
  {| device := d; etherType := EtherType eth;
     inPort := inPort; outPort := outPort;
     srcMAC := SrcMAC eth; dstMAC := DstMAC eth |}.

(** What [setFlowRule] sends for [p] when nothing fails. *)
Definition rule_sends (p : flowParam) : list (Device * Message) :=
  [(device p, Msg_FlowMod (forwardFlow p));
   (device p, Msg_FlowMod (forwardFlow p))].

(** The rules of the loop of [switching]: hop [v] gets a rule on the
    device of [v[0]], out of [v[0]], and hands [v[1]] on as next in-port. *)
Fixpoint loop_rules (eth : Ethernet) (inPort : Z) (path : list (Port * Port))
    : list flowParam :=
  match path with
  | [] => []
  | v :: rest =>
      hop_param eth (Port_Device (fst v)) inPort (Port_Number (fst v))
      :: loop_rules eth (Port_Number (snd v)) rest
  end.

(** The in-port the loop of [switching] ends with. *)
Fixpoint last_inPort (inPort : Z) (path : list (Port * Port)) : Z :=
  match path with
  | [] => inPort
  | v :: rest => last_inPort (Port_Number (snd v)) rest
  end.

(** What [switching] sends along a non-empty path when nothing fails. *)
Definition switching_sends (eth : Ethernet) (ingress egress : Port)
    (path : list (Port * Port)) (packet : list Z) : list (Device * Message) :=
  flat_map rule_sends
    (loop_rules eth (Port_Number ingress) path
     ++ [hop_param eth (Port_Device egress)
           (last_inPort (Port_Number ingress) path) (Port_Number egress)])
  ++ [(Port_Device egress, Msg_PacketOut (directOut egress packet))].

(** What [ProcessPacket] sends for a packet when nothing fails. *)
Definition packet_sends (w : World) (eth : Ethernet) (ingress : Port)
    (packet : list Z) : list (Device * Message) :=
  match Finder_Node w (DstMAC eth), isBroadcast eth with
  | Some dstNode, false =>
      let egress := Node_Port dstNode in
      if Device_ID (Port_Device ingress) =? Device_ID (Port_Device egress)
      then
        rule_sends (hop_param eth (Port_Device ingress)
                      (Port_Number ingress) (Port_Number egress))
        ++ [(Port_Device egress, Msg_PacketOut (directOut egress packet))]
      else
        match Finder_Path w (Device_ID (Port_Device ingress))
                            (Device_ID (Port_Device egress)) with
        | None | Some [] => []
        | Some path => switching_sends eth ingress egress path packet
        end
  | _, _ => [(Port_Device ingress, Msg_PacketOut (floodOut ingress packet))]
  end.

(** What [cleanup] sends for a port when nothing fails. *)
Definition cleanup_sends (w : World) (port : Port) : list (Device * Message) :=
  if Finder_IsEdge w port
  then map (fun d => (d, Msg_FlowMod (deleteFlow fresh_Match))) (Finder_Devices w)
  else flat_map (fun n => node_deletes (Node_MAC n) (Finder_Devices w))
                (Port_Nodes w port).

(** *** Two linked switches *)

Module Linked.

(** Switches A and B are joined by A.9 and B.9; host D sits behind B.5.
    [bad] is the device whose sends fail, if any. *)
Definition world (bad : option Z) : World :=
  {| MarshalBinary := Examples.marshal;
     Finder_Node := fun mac =>
       if bytes_Compare mac Examples.macD =? 0
       then Some {| Node_MAC := Examples.macD;
                    Node_Port := Examples.port Examples.devB 5 |}
       else None;
     Finder_Path := fun src dst =>
       if (src =? 1) && (dst =? 2)
       then Some [(Examples.port Examples.devA 9, Examples.port Examples.devB 9)]
       else None;
     Finder_IsEdge := fun p => Port_Number p =? 9;
     Finder_Devices := [Examples.devA; Examples.devB];
     Port_Nodes := fun p =>
       if (Device_ID (Port_Device p) =? 2) && (Port_Number p =? 5)
       then [{| Node_MAC := Examples.macD; Node_Port := p |}] else [];
     Device_Port := fun d n =>
       if (n =? 5) || (n =? 9) || (n =? 3) then Some (Examples.port d n) else None;
     Factory_fails := fun _ _ => None;
     Send_fails := fun _ d _ =>
       match bad with
       | Some id => if Device_ID d =? id
                    then Some (Err_External "write failed") else None
       | None => None
       end |}.

End Linked.

End L2Switch.

Module Manager.

(** ** The device manager of one switch connection *)

Inductive Error :=
| ErrDisconnected                    (* "use of disconnected manager" *)
| Err_UnsupportedVersion (v : Z)     (* "unsupported OpenFlow protocol version: 0x%X" *)
| Err_External (msg : string).       (* raised by the transceiver *)

(** [openflow.HelloMessage]: the wire version is a [uint8]. *)
Record HelloMessage := { Version : Z }.

Definition handleHelloMessage (msg : HelloMessage) : option Error :=
  (* We only support OF 1.0 *)
  if Version msg <? 0x01 then Some (Err_UnsupportedVersion (Version msg))
  else None.

Inductive FlowModCommand :=
| OFPFC_ADD | OFPFC_MODIFY | OFPFC_MODIFY_STRICT
| OFPFC_DELETE | OFPFC_DELETE_STRICT.

Record FlowModifyFlag := { SendFlowRemoved : bool; CheckOverlap : bool }.

Local Open Scope act_scope.

Section Sending.
(** The match, action and transceiver types live in package [openflow];
    the manager only passes their values on. *)
Variables FlowMatch FlowAction Transceiver : Type.

Record FlowRule := {
  Rule_Match : FlowMatch;
  Rule_Actions : list FlowAction;
  Rule_IdleTimeout : Z;
  Rule_HardTimeout : Z
}.

Record FlowModifyMessage := {
  Mod_Match : FlowMatch;
  Mod_Command : FlowModCommand;
  Mod_IdleTimeout : Z;
  Mod_HardTimeout : Z;
  Mod_Flags : FlowModifyFlag;
  Mod_Actions : list FlowAction
}.

(** The calls the manager makes on its transceiver, with their outcome. *)
Inductive Event :=
| Ev_SendFlowModify (t : Transceiver) (m : FlowModifyMessage) (r : option Error)
| Ev_SendPacketOut (t : Transceiver) (inPort : Z) (actions : list FlowAction)
    (packet : list Z) (r : option Error).

(** Whether a transceiver call fails; it may depend on the calls before. *)
Record World := {
  SendFlowModify_fails :
    list Event -> Transceiver -> FlowModifyMessage -> option Error;
  SendPacketOut_fails :
    list Event -> Transceiver -> Z -> list FlowAction -> list Z -> option Error
}.

(** [Manager]: [openflow] is [None] once [Run] has reset it to nil. *)
Record Manager := {
  openflow : option Transceiver;
  DPID : Z;
  AuxID : Z
}.

Variable w : World.

Definition SendFlowModifyMessage (t : Transceiver) (m : FlowModifyMessage)
    : Act Event (option Error) :=
  h <- history ;;
  let r := SendFlowModify_fails w h t m in
  emit (Ev_SendFlowModify t m r) ;;
  ret r.

Definition SendPacketOutMessage (t : Transceiver) (inPort : Z)
    (actions : list FlowAction) (packet : list Z) : Act Event (option Error) :=
  h <- history ;;
  let r := SendPacketOut_fails w h t inPort actions packet in
  emit (Ev_SendPacketOut t inPort actions packet r) ;;
  ret r.

Definition InstallFlowRule (r : Manager) (flow : FlowRule)
    : Act Event (option Error) :=
  match openflow r with
  | None => ret (Some ErrDisconnected)
  | Some xcvr =>
      let fmod :=
        {| Mod_Match := Rule_Match flow;
           Mod_Command := OFPFC_ADD;
           Mod_IdleTimeout := Rule_IdleTimeout flow;
           Mod_HardTimeout := Rule_HardTimeout flow;
           Mod_Flags := {| SendFlowRemoved := true; CheckOverlap := true |};
           Mod_Actions := Rule_Actions flow |} in
      SendFlowModifyMessage xcvr fmod
  end.

(** Only [Match] and [Command] are given; the other fields of the
    struct literal keep Go's zero values. A nil match is the caller's. *)
Definition RemoveFlowRule (r : Manager) (match_ : FlowMatch)
    : Act Event (option Error) :=
  match openflow r with
  | None => ret (Some ErrDisconnected)
  | Some xcvr =>
      let fmod :=
        {| Mod_Match := match_;
           Mod_Command := OFPFC_DELETE;
           Mod_IdleTimeout := 0;
           Mod_HardTimeout := 0;
           Mod_Flags := {| SendFlowRemoved := false; CheckOverlap := false |};
           Mod_Actions := [] |} in
      SendFlowModifyMessage xcvr fmod
  end.

Definition SendPacketOut (r : Manager) (inPort : Z)
    (actions : list FlowAction) (packet : list Z) : Act Event (option Error) :=
  match openflow r with
  | None => ret (Some ErrDisconnected)
  | Some xcvr => SendPacketOutMessage xcvr inPort actions packet
  end.

End Sending.

Arguments Rule_Match {FlowMatch FlowAction}.
Arguments Rule_Actions {FlowMatch FlowAction}.
Arguments Rule_IdleTimeout {FlowMatch FlowAction}.
Arguments Rule_HardTimeout {FlowMatch FlowAction}.
Arguments Mod_Match {FlowMatch FlowAction}.
Arguments Mod_Command {FlowMatch FlowAction}.
Arguments Mod_IdleTimeout {FlowMatch FlowAction}.
Arguments Mod_HardTimeout {FlowMatch FlowAction}.
Arguments Mod_Flags {FlowMatch FlowAction}.
Arguments Mod_Actions {FlowMatch FlowAction}.
Arguments Ev_SendFlowModify {FlowMatch FlowAction Transceiver}.
Arguments Ev_SendPacketOut {FlowMatch FlowAction Transceiver}.
Arguments openflow {Transceiver}.
Arguments InstallFlowRule {FlowMatch FlowAction Transceiver}.
Arguments RemoveFlowRule {FlowMatch FlowAction Transceiver}.
Arguments SendPacketOut {FlowMatch FlowAction Transceiver}.

End Manager.

Module Handlers.
Import Manager.

(** ** The message handlers of the device manager *)

Local Open Scope act_scope.

(** [ofp_port_config] and [ofp_port_state], package [openflow]. *)
Definition OFPPC_PORT_DOWN : Z := Z.shiftl 1 0.
Definition OFPPC_NO_STP : Z := Z.shiftl 1 1.
Definition OFPPC_NO_RECV : Z := Z.shiftl 1 2.
Definition OFPPC_NO_RECV_STP : Z := Z.shiftl 1 3.
Definition OFPPC_NO_FLOOD : Z := Z.shiftl 1 4.
Definition OFPPC_NO_FWD : Z := Z.shiftl 1 5.
Definition OFPPC_NO_PACKET_IN : Z := Z.shiftl 1 6.
Definition OFPPS_LINK_DOWN : Z := Z.shiftl 1 0.

(** [openflow.Port], as far as the manager reads it. *)
Record Port := {
  Port_Number : Z;
  Port_MAC : HardwareAddr;
  Port_Name : string;
  Port_Config : Z;
  Port_State : Z;
  Port_Advertised : Z
}.

(** [openflow.FeaturesReplyMessage]; the capability and action sets
    ([GetCapability], [GetSupportedAction]) are kept as their bitmasks. *)
Record FeaturesReplyMessage := {
  FR_DPID : Z;
  FR_NumBuffers : Z;
  FR_NumTables : Z;
  FR_Capability : Z;
  FR_SupportedAction : Z;
  FR_Ports : list Port
}.

Record PortStatusMessage := { Target : Port }.

Record PacketInMessage := { InPort : Z; Data : list Z }.

(** [net.IPNet]: a network address and its mask. *)
Record IPNet := { IP : list Z; Mask : list Z }.

(** [openflow.FlowMatch], by the fields its setters fill; an unset field
    is a wildcard. *)
Record FlowMatch := {
  M_EtherType : option Z;
  M_InPort : option Z;
  M_Protocol : option Z;
  M_SrcIP : option IPNet;
  M_DstIP : option IPNet;
  M_SrcMAC : option HardwareAddr;
  M_DstMAC : option HardwareAddr;
  M_SrcPort : option Z;
  M_DstPort : option Z;
  M_VLANID : option Z;
  M_VLANPriority : option Z;
  M_TOS : option Z
}.

(** [openflow.NewFlowMatch()]: nothing set. *)
Definition NewFlowMatch : FlowMatch :=
  {| M_EtherType := None; M_InPort := None; M_Protocol := None;
     M_SrcIP := None; M_DstIP := None; M_SrcMAC := None; M_DstMAC := None;
     M_SrcPort := None; M_DstPort := None; M_VLANID := None;
     M_VLANPriority := None; M_TOS := None |}.

(** [openflow.FlowAction]; the manager only builds [FlowActionOutput]. *)
Inductive FlowAction := FlowActionOutput (port : Z).

(** The match the test block of [handleFeaturesReplyMessage] builds:
    [NewFlowMatch] with each of its twelve setters called once;
    [net.ParseCIDR] and [net.ParseMAC] of the literals give the values. *)
Definition test_match : FlowMatch :=
  {| M_EtherType := Some 0x0800;
     M_InPort := Some 39;
     M_Protocol := Some 0x06;
     M_SrcIP := Some {| IP := [223; 130; 120; 0]; Mask := [255; 255; 255; 0] |};
     M_DstIP := Some {| IP := [223; 130; 122; 0]; Mask := [255; 255; 255; 0] |};
     M_SrcMAC := Some [0x00; 0x01; 0x02; 0x03; 0x04; 0x05];
     M_DstMAC := Some [0x05; 0x04; 0x03; 0x02; 0x01; 0x00];
     M_SrcPort := Some 80;
     M_DstPort := Some 110;
     M_VLANID := Some 1;
     M_VLANPriority := Some 1;
     M_TOS := Some 32 |}.

(** The rule of the test block: three outputs, idle timeout 30, the hard
    timeout left at zero. *)
Definition test_rule : FlowRule FlowMatch FlowAction :=
  {| Rule_Match := test_match;
     Rule_Actions := [FlowActionOutput 40; FlowActionOutput 41; FlowActionOutput 42];
     Rule_IdleTimeout := 30;
     Rule_HardTimeout := 0 |}.

(** [Manager.Ports], a map from port number to port. *)
Definition PortMap := Z -> option Port.

Definition PortMap_set (m : PortMap) (number : Z) (v : Port) : PortMap :=
  fun n => if n =? number then Some v else m n.

(** [for _, v := range ports { r.Ports[v.Number] = v }] *)
Definition PortMap_setAll (m : PortMap) (ports : list Port) : PortMap :=
  fold_left (fun m v => PortMap_set m (Port_Number v) v) ports m.

Section Handling.
(** The transceiver type and the FLOOD port number live in package
    [openflow], outside the sources. *)
Variable Transceiver : Type.
Variable OFPP_FLOOD : Z.

(** All of [Manager]'s fields: those of the send paths, and the ones the
    handlers fill in. *)
Record ManagerState := {
  base : Manager Transceiver;
  NumBuffers : Z;
  NumTables : Z;
  Capabilities : option Z;
  Actions : option Z;
  Ports : PortMap
}.

(** [NewManager]: an empty port map, everything else zero or nil. *)
Definition NewManager : ManagerState :=
  {| base := {| openflow := None; DPID := 0; AuxID := 0 |};
     NumBuffers := 0; NumTables := 0;
     Capabilities := None; Actions := None;
     Ports := fun _ => None |}.

(** The lines the handlers write to the log. *)
Inductive LogLine :=
| Log_DPID (v : Z)
| Log_NumBuffers (v : Z)
| Log_NumTables (v : Z)
| Log_Capabilities (v : Z)
| Log_Actions (v : Z)
| Log_Port (v : Port)
| Log_InstallFailed (e : Error)
| Log_FlowStatsFailed (e : Error)
| Log_GetConfigFailed (e : Error)
| Log_PacketIn (msg : PacketInMessage)
| Log_PacketOutFailed (e : Error)
| Log_PortStatus (msg : PortStatusMessage).

(** What a handler does to the outside: log lines, calls on the
    transceiver with their outcome, and the registration in the pool. *)
Inductive HEvent :=
| H_Log (l : LogLine)
| H_PortMod (x : Transceiver) (number : Z) (mac : HardwareAddr)
    (config advertise : Z) (r : option Error)
| H_Barrier (x : Transceiver) (r : option Error)
| H_FlowStatsRequest (x : Transceiver) (m : FlowMatch) (r : option Error)
| H_GetConfigRequest (x : Transceiver) (r : option Error)
| H_Send (e : Event FlowMatch FlowAction Transceiver)
| H_PoolAdd (dpid auxid : Z).

Record HWorld := {
  send_world : World FlowMatch FlowAction Transceiver;
  PortMod_fails :
    list HEvent -> Transceiver -> Z -> HardwareAddr -> Z -> Z -> option Error;
  Barrier_fails : list HEvent -> Transceiver -> option Error;
  FlowStats_fails : list HEvent -> Transceiver -> FlowMatch -> option Error;
  GetConfig_fails : list HEvent -> Transceiver -> option Error
}.

Variable w : HWorld.

(** The calls of the send paths among the events of a handler. *)
Fixpoint send_calls (t : list HEvent)
    : list (Event FlowMatch FlowAction Transceiver) :=
  match t with
  | [] => []
  | H_Send e :: t' => e :: send_calls t'
  | _ :: t' => send_calls t'
  end.

(** Run a send path of the manager inside a handler: it sees the send
    calls made so far, and the calls it makes are appended. *)
Definition in_handler {A}
    (m : Act (Event FlowMatch FlowAction Transceiver) A) : Act HEvent A :=
  fun t =>
    let calls := send_calls t in
    let (a, calls') := m calls in
    (a, t ++ map H_Send (skipn (List.length calls) calls')).

Definition log_Printf (l : LogLine) : Act HEvent unit := emit (H_Log l).

Definition SendPortModificationMessage (x : Transceiver) (number : Z)
    (mac : HardwareAddr) (config advertise : Z) : Act HEvent (option Error) :=
  t <- history ;;
  let r := PortMod_fails w t x number mac config advertise in
  emit (H_PortMod x number mac config advertise r) ;;
  ret r.

Definition SendBarrierRequestMessage (x : Transceiver) : Act HEvent (option Error) :=
  t <- history ;;
  let r := Barrier_fails w t x in
  emit (H_Barrier x r) ;;
  ret r.

Definition SendFlowStatsRequestMessage (x : Transceiver) (m : FlowMatch)
    : Act HEvent (option Error) :=
  t <- history ;;
  let r := FlowStats_fails w t x m in
  emit (H_FlowStatsRequest x m r) ;;
  ret r.

Definition SendGetConfigRequestMessage (x : Transceiver) : Act HEvent (option Error) :=
  t <- history ;;
  let r := GetConfig_fails w t x in
  emit (H_GetConfigRequest x r) ;;
  ret r.

(** The first loop of [handleFeaturesReplyMessage]: disable STP on all
    ports. *)
Fixpoint disableSTP (x : Transceiver) (ports : list Port)
    : Act HEvent (option Error) :=
  match ports with
  | [] => ret None
  | v :: rest =>
      let c := Z.lor (Port_Config v) OFPPC_NO_STP in
      must SendPortModificationMessage x (Port_Number v) (Port_MAC v) c
             (Port_Advertised v) ;;
      disableSTP x rest
  end.

(** The loop that logs every port. *)
Fixpoint logPorts (ports : list Port) : Act HEvent unit :=
  match ports with
  | [] => ret tt
  | v :: rest => log_Printf (Log_Port v) ;; logPorts rest
  end.

(** The block marked "XXX: test": install the test rule, ask for the flow
    statistics and the configuration; a failure is only logged. *)
Definition testBlock (x : Transceiver) (r : ManagerState) : Act HEvent unit :=
  err <- in_handler (InstallFlowRule (send_world w) (base r) test_rule) ;;
  match err with
  | Some e => log_Printf (Log_InstallFailed e)
  | None => ret tt
  end ;;
  err <- SendFlowStatsRequestMessage x NewFlowMatch ;;
  match err with
  | Some e => log_Printf (Log_FlowStatsFailed e)
  | None => ret tt
  end ;;
  err <- SendGetConfigRequestMessage x ;;
  match err with
  | Some e => log_Printf (Log_GetConfigFailed e)
  | None => ret tt
  end.

(** [handleFeaturesReplyMessage] returns its error and leaves the manager
    as the second component; [None] stands for the nil dereference of
    [r.openflow] on a manager without a transceiver. *)
Definition handleFeaturesReplyMessage (r : ManagerState)
    (msg : FeaturesReplyMessage) : Act HEvent (option (option Error * ManagerState)) :=
  match openflow (base r) with
  | None => ret None
  | Some x =>
      err <- disableSTP x (FR_Ports msg) ;;
      match err with
      | Some e => ret (Some (Some e, r))
      | None =>
          err <- SendBarrierRequestMessage x ;;
          match err with
          | Some e => ret (Some (Some e, r))
          | None =>
              let r :=
                {| base := {| openflow := openflow (base r);
                              DPID := FR_DPID msg;
                              AuxID := AuxID _ (base r) |};
                   NumBuffers := FR_NumBuffers msg;
                   NumTables := FR_NumTables msg;
                   Capabilities := Some (FR_Capability msg);
                   Actions := Some (FR_SupportedAction msg);
                   Ports := PortMap_setAll (Ports r) (FR_Ports msg) |} in
              (* Add this device to the device pool *)
              emit (H_PoolAdd (DPID _ (base r)) (AuxID _ (base r))) ;;
              log_Printf (Log_DPID (FR_DPID msg)) ;;
              log_Printf (Log_NumBuffers (FR_NumBuffers msg)) ;;
              log_Printf (Log_NumTables (FR_NumTables msg)) ;;
              log_Printf (Log_Capabilities (FR_Capability msg)) ;;
              log_Printf (Log_Actions (FR_SupportedAction msg)) ;;
              logPorts (FR_Ports msg) ;;
              testBlock x r ;;
              ret (Some (None, r))
          end
      end
  end.

(** [handlePortStatusMessage]: update the port, log, return nil. *)
Definition handlePortStatusMessage (r : ManagerState) (msg : PortStatusMessage)
    : Act HEvent (option Error * ManagerState) :=
  let r :=
    {| base := base r; NumBuffers := NumBuffers r; NumTables := NumTables r;
       Capabilities := Capabilities r; Actions := Actions r;
       Ports := PortMap_set (Ports r) (Port_Number (Target msg)) (Target msg) |} in
  log_Printf (Log_PortStatus msg) ;;
  ret (None, r).

(** [handlePacketInMessage]: log, flood the packet, log a failure,
    return nil. *)
Definition handlePacketInMessage (r : ManagerState) (msg : PacketInMessage)
    : Act HEvent (option Error) :=
  log_Printf (Log_PacketIn msg) ;;
  let inPort := InPort msg in
  let actions := [FlowActionOutput OFPP_FLOOD] in
  err <- in_handler (SendPacketOut (send_world w) (base r) inPort actions (Data msg)) ;;
  match err with
  | Some e => log_Printf (Log_PacketOutFailed e)
  | None => ret tt
  end ;;
  ret None.

(** The calls on the transceiver among the events, without their
    outcome or the log lines. *)
Inductive Call :=
| Call_PortMod (number : Z) (mac : HardwareAddr) (config advertise : Z)
| Call_Barrier
| Call_FlowModify (m : FlowModifyMessage FlowMatch FlowAction)
| Call_PacketOut (inPort : Z) (actions : list FlowAction) (packet : list Z)
| Call_FlowStatsRequest (m : FlowMatch)
| Call_GetConfigRequest
| Call_PoolAdd (dpid auxid : Z).

Fixpoint calls (t : list HEvent) : list Call :=
  match t with
  | [] => []
  | H_Log _ :: t' => calls t'
  | H_PortMod _ n mac c a _ :: t' => Call_PortMod n mac c a :: calls t'
  | H_Barrier _ _ :: t' => Call_Barrier :: calls t'
  | H_FlowStatsRequest _ m _ :: t' => Call_FlowStatsRequest m :: calls t'
  | H_GetConfigRequest _ _ :: t' => Call_GetConfigRequest :: calls t'
  | H_Send (Ev_SendFlowModify _ m _) :: t' => Call_FlowModify m :: calls t'
  | H_Send (Ev_SendPacketOut _ i a p _) :: t' => Call_PacketOut i a p :: calls t'
  | H_PoolAdd d a :: t' => Call_PoolAdd d a :: calls t'
  end.

(** The port-mod [disableSTP] sends for a port. *)
Definition stp_call (v : Port) : Call :=
  Call_PortMod (Port_Number v) (Port_MAC v)
    (Z.lor (Port_Config v) OFPPC_NO_STP) (Port_Advertised v).

(** A port-mod of [disableSTP] for a port of the list, whatever it
    returned. *)
Definition stp_event (x : Transceiver) (ports : list Port)
    (ev : HEvent) : Prop :=
  exists v r, In v ports /\
    ev = H_PortMod x (Port_Number v) (Port_MAC v)
           (Z.lor (Port_Config v) OFPPC_NO_STP) (Port_Advertised v) r.

(** The flow-mod [InstallFlowRule] builds for the test rule. *)
Definition test_flowmod : FlowModifyMessage FlowMatch FlowAction :=
  {| Mod_Match := test_match;
     Mod_Command := OFPFC_ADD;
     Mod_IdleTimeout := 30;
     Mod_HardTimeout := 0;
     Mod_Flags := {| SendFlowRemoved := true; CheckOverlap := true |};
     Mod_Actions := [FlowActionOutput 40; FlowActionOutput 41; FlowActionOutput 42] |}.

(** The manager after a FEATURES_REPLY has been taken in. *)
Definition registered (r : ManagerState) (msg : FeaturesReplyMessage)
    : ManagerState :=
  {| base := {| openflow := openflow (base r);
                DPID := FR_DPID msg;
                AuxID := AuxID _ (base r) |};
     NumBuffers := FR_NumBuffers msg;
     NumTables := FR_NumTables msg;
     Capabilities := Some (FR_Capability msg);
     Actions := Some (FR_SupportedAction msg);
     Ports := PortMap_setAll (Ports r) (FR_Ports msg) |}.

End Handling.

Arguments base {Transceiver}.
Arguments NumBuffers {Transceiver}.
Arguments NumTables {Transceiver}.
Arguments Capabilities {Transceiver}.
Arguments Actions {Transceiver}.
Arguments Ports {Transceiver}.
Arguments H_Log {Transceiver}.
Arguments H_PortMod {Transceiver}.
Arguments H_Barrier {Transceiver}.
Arguments H_FlowStatsRequest {Transceiver}.
Arguments H_GetConfigRequest {Transceiver}.
Arguments H_Send {Transceiver}.
Arguments H_PoolAdd {Transceiver}.
Arguments send_world {Transceiver}.
Arguments PortMod_fails {Transceiver}.
Arguments Barrier_fails {Transceiver}.
Arguments FlowStats_fails {Transceiver}.
Arguments GetConfig_fails {Transceiver}.
Arguments send_calls {Transceiver}.
Arguments calls {Transceiver}.
Arguments in_handler {Transceiver A}.
Arguments disableSTP {Transceiver}.
Arguments logPorts {Transceiver}.
Arguments testBlock {Transceiver}.
Arguments handleFeaturesReplyMessage {Transceiver}.
Arguments handlePortStatusMessage {Transceiver}.
Arguments handlePacketInMessage {Transceiver}.
Arguments registered {Transceiver}.
Arguments stp_event {Transceiver}.

(** *** A switch with two ports *)

Module Examples.

Definition p1 : Port :=
  {| Port_Number := 1; Port_MAC := [0; 0; 0; 0; 0; 1]; Port_Name := "p1";
     Port_Config := 0; Port_State := 0; Port_Advertised := 0x20 |}.

(** Port 2 is administratively down and does not flood. *)
Definition p2 : Port :=
  {| Port_Number := 2; Port_MAC := [0; 0; 0; 0; 0; 2]; Port_Name := "p2";
     Port_Config := 0x11; Port_State := 1; Port_Advertised := 0 |}.

Definition reply : FeaturesReplyMessage :=
  {| FR_DPID := 0x0102030405060708; FR_NumBuffers := 256; FR_NumTables := 1;
     FR_Capability := 5; FR_SupportedAction := 1; FR_Ports := [p1; p2] |}.

(** A manager whose transceiver is number 7, on the main connection. *)
Definition connected : ManagerState Z :=
  {| base := {| openflow := Some 7; DPID := 0; AuxID := 0 |};
     NumBuffers := 0; NumTables := 0; Capabilities := None; Actions := None;
     Ports := fun _ => None |}.

(** A transceiver on which every call succeeds, except the barrier
    request when [barrier] is an error. *)
Definition world (barrier : option Error) : HWorld Z :=
  {| send_world :=
       {| SendFlowModify_fails := fun _ _ _ => None;
          SendPacketOut_fails := fun _ _ _ _ _ => None |};
     PortMod_fails := fun _ _ _ _ _ _ => None;
     Barrier_fails := fun _ _ => barrier;
     FlowStats_fails := fun _ _ _ => None;
     GetConfig_fails := fun _ _ => None |}.

End Examples.

End Handlers.

(** * Properties *)

Lemma bytes_Compare_eq a b : bytes_Compare a b = 0 <-> a = b.
Proof.
  revert b; induction a as [|x a IH]; intros [|y b]; simpl;
    try (split; [discriminate | discriminate]); try tauto.
  destruct (Z.compare_spec x y) as [E|L|G].
  - subst. rewrite IH. split; [intros ->; reflexivity | intros H; now inversion H].
  - split; [discriminate | intros H; inversion H; lia].
  - split; [discriminate | intros H; inversion H; lia].
Qed.

Section Emits.
Context {Ev : Type} (P : Ev -> Prop).

Lemma emits_ret {A} (Q : A -> Prop) (a : A) : Q a -> emits P Q (ret a).
Proof.
  intros H t. exists []. rewrite app_nil_r.
  split; [reflexivity | split; [constructor | exact H]].
Qed.

Lemma emits_history : emits P (fun _ => True) (@history Ev).
Proof.
  intros t. exists []. rewrite app_nil_r.
  split; [reflexivity | split; [constructor | exact I]].
Qed.

Lemma emits_emit e : P e -> emits P (fun _ => True) (emit e).
Proof.
  intros H t. exists [e].
  split; [reflexivity | split; [repeat constructor; assumption | exact I]].
Qed.

Lemma emits_bind {A B} (Q : A -> Prop) (R : B -> Prop)
    (m : Act Ev A) (k : A -> Act Ev B) :
  emits P Q m -> (forall a, Q a -> emits P R (k a)) -> emits P R (bind m k).
Proof.
  intros Hm Hk t. unfold bind.
  destruct (Hm t) as (e1 & H1 & F1 & Q1). destruct (m t) as [a t1].
  simpl in H1, Q1. subst t1.
  destruct (Hk a Q1 (t ++ e1)) as (e2 & H2 & F2 & R2).
  exists (e1 ++ e2). rewrite H2, app_assoc. split; [reflexivity|].
  split; [apply Forall_app; split; assumption | exact R2].
Qed.

End Emits.

Module L2SwitchSpec.
Import L2Switch.

Ltac run := cbv [bind ret history emit factory_new log_Debug log_Err
                 NewAction NewPacketOut NewMatch NewInstruction NewFlowMod
                 SendMessage].

Lemma isBroadcast_true eth :
  isBroadcast eth = true <-> DstMAC eth = [255; 255; 255; 255; 255; 255].
Proof.
  unfold isBroadcast. rewrite Z.eqb_eq. apply bytes_Compare_eq.
Qed.

Section Installing.
Variable w : World.
Hypothesis Hfac : factory_ok w.

Lemma installFlow_run p t :
  installFlow w p t =
    (Send_fails w t (device p) (Msg_FlowMod (forwardFlow p)),
     t ++ [Ev_Send (device p) (Msg_FlowMod (forwardFlow p))
             (Send_fails w t (device p) (Msg_FlowMod (forwardFlow p)))]).
Proof.
  unfold installFlow. run. rewrite !Hfac. reflexivity.
Qed.

Lemma packetout_run egress packet t :
  packetout w egress packet t =
    (Send_fails w t (Port_Device egress) (Msg_PacketOut (directOut egress packet)),
     t ++ [Ev_Send (Port_Device egress) (Msg_PacketOut (directOut egress packet))
             (Send_fails w t (Port_Device egress)
                (Msg_PacketOut (directOut egress packet)))]).
Proof.
  unfold packetout. run. rewrite !Hfac. reflexivity.
Qed.

Lemma flood_run ingress packet t :
  flood w ingress packet t =
    (Send_fails w t (Port_Device ingress) (Msg_PacketOut (floodOut ingress packet)),
     t ++ [Ev_Send (Port_Device ingress) (Msg_PacketOut (floodOut ingress packet))
             (Send_fails w t (Port_Device ingress)
                (Msg_PacketOut (floodOut ingress packet)))]).
Proof.
  unfold flood. run. rewrite !Hfac. reflexivity.
Qed.

End Installing.

(** Whatever the factory does, [installFlow] either gives up before
    sending or sends the forward flow of its parameters. *)
Lemma installFlow_cases w p t :
  (exists e, installFlow w p t = (Some e, t)) \/
  installFlow w p t =
    (Send_fails w t (device p) (Msg_FlowMod (forwardFlow p)),
     t ++ [Ev_Send (device p) (Msg_FlowMod (forwardFlow p))
             (Send_fails w t (device p) (Msg_FlowMod (forwardFlow p)))]).
Proof.
  unfold installFlow. run.
  destruct (Factory_fails w t Call_NewMatch); [left; eexists; reflexivity|].
  destruct (Factory_fails w t Call_NewAction); [left; eexists; reflexivity|].
  destruct (Factory_fails w t Call_NewInstruction); [left; eexists; reflexivity|].
  destruct (Factory_fails w t Call_NewFlowMod); [left; eexists; reflexivity|].
  right. reflexivity.
Qed.

Lemma sent_app a b : sent (a ++ b) = sent a ++ sent b.
Proof.
  induction a as [|[| |] a IH]; simpl; rewrite ?IH; reflexivity.
Qed.

Lemma flowmods_app a b : flowmods (a ++ b) = flowmods a ++ flowmods b.
Proof.
  induction a as [|[d [o|f]] a IH]; simpl; rewrite ?IH; reflexivity.
Qed.

(** *** What the cleanup path can emit, whatever fails *)

Lemma factory_new_emits P w {A} c (fresh : A) :
  emits P (fun r => forall x, r = inr x -> x = fresh) (factory_new w c fresh).
Proof.
  unfold factory_new. eapply emits_bind; [apply emits_history|].
  intros t _. destruct (Factory_fails w t c); apply emits_ret; congruence.
Qed.

Lemma SendMessage_emits (P : Event -> Prop) w d m :
  (forall r, P (Ev_Send d m r)) -> emits P (fun _ => True) (SendMessage w d m).
Proof.
  intros H. unfold SendMessage.
  eapply emits_bind; [apply emits_history|]. intros t _.
  eapply emits_bind; [apply emits_emit, H|]. intros _ _.
  apply emits_ret. exact I.
Qed.

Lemma removeFlow_emits w d m :
  emits cleanup_event (fun _ => True) (removeFlow w d m).
Proof.
  unfold removeFlow, NewFlowMod, log_Debug.
  eapply emits_bind; [apply emits_emit; exact I|]. intros _ _.
  eapply emits_bind; [apply factory_new_emits|]. intros [e|f] Hf.
  - apply emits_ret. exact I.
  - rewrite (Hf f eq_refl). apply SendMessage_emits.
    intros r. exists m. reflexivity.
Qed.

(** Walk an action built from binds, matches, log lines and factory
    calls; [lem] closes the calls of the function below. *)
Ltac emits_go lem :=
  lazymatch goal with
  | |- emits _ _ (bind (factory_new _ _ _) _) =>
      eapply emits_bind; [apply factory_new_emits | intros [?|?] ?; emits_go lem]
  | |- emits _ _ (bind _ _) =>
      eapply (emits_bind _ (fun _ => True));
      [emits_go lem | intros ? _; emits_go lem]
  | |- emits _ _ (match ?x with _ => _ end) => destruct x; emits_go lem
  | |- emits _ _ (ret _) => apply emits_ret; exact I
  | |- emits _ _ (emit _) => apply emits_emit; exact I
  | |- _ => first [apply lem | apply removeFlow_emits | idtac]
  end.

Lemma removeFlowRules_loop_emits w ds mac :
  emits cleanup_event (fun _ => True) (removeFlowRules_loop w ds mac).
Proof.
  induction ds as [|d ds IH]; simpl.
  - apply emits_ret. exact I.
  - unfold NewMatch, log_Debug. emits_go IH.
Qed.

Lemma removeAllFlows_loop_emits w ds m :
  emits cleanup_event (fun _ => True) (removeAllFlows_loop w ds m).
Proof.
  induction ds as [|d ds IH]; simpl.
  - apply emits_ret. exact I.
  - unfold log_Err. emits_go IH.
Qed.

Lemma cleanup_loop_emits w ns :
  emits cleanup_event (fun _ => True) (cleanup_loop w ns).
Proof.
  induction ns as [|n ns IH]; simpl.
  - apply emits_ret. exact I.
  - unfold log_Err, log_Debug, removeFlowRules.
    emits_go (removeFlowRules_loop_emits w). exact IH.
Qed.

Lemma cleanup_emits w port :
  emits cleanup_event (fun _ => True) (cleanup w port).
Proof.
  unfold cleanup, removeAllFlows, NewMatch, log_Debug.
  emits_go (removeAllFlows_loop_emits w). apply cleanup_loop_emits.
Qed.

(** A rule whose cookie has bit 63 set is not selected by the DELETE of
    [removeFlow]: its cookie is 0 and its mask is bit 63. *)
Lemma deleteFlow_safe m c :
  Z.testbit c 63 = true -> cookie_selects (deleteFlow m) c = false.
Proof.
  intros H. unfold cookie_selects.
  cbn [FlowMod_CookieMask FlowMod_Cookie deleteFlow].
  rewrite Z.land_0_l. apply Z.eqb_neq. intros E.
  assert (B : Z.testbit (Z.land c (2 ^ 63)) 63 = true).
  { rewrite Z.land_spec, H, Z.pow2_bits_true by lia. reflexivity. }
  rewrite E in B. rewrite Z.bits_0 in B. discriminate.
Qed.

(** *** The cleanup path when the factory does not fail *)

Section Cleanup.
Variable w : World.
Hypothesis Hfac : factory_ok w.

Lemma removeFlow_run d m t :
  let t1 := t ++ [Ev_Debug (Log_RemovingOn (Device_ID d))] in
  let r := Send_fails w t1 d (Msg_FlowMod (deleteFlow m)) in
  removeFlow w d m t = (r, t1 ++ [Ev_Send d (Msg_FlowMod (deleteFlow m)) r]).
Proof.
  unfold removeFlow. run. rewrite Hfac. reflexivity.
Qed.

(** Every device is tried once, and a failed send is logged. *)
Lemma removeAllFlows_loop_run ds m : forall t,
  exists evs,
    removeAllFlows_loop w ds m t = (tt, t ++ evs) /\
    sent evs = map (fun d => (d, Msg_FlowMod (deleteFlow m))) ds /\
    (forall d m' e, In (Ev_Send d m' (Some e)) evs ->
                    In (Ev_Err (Log_FailedRemoveOn (Device_ID d) e)) evs).
Proof.
  induction ds as [|d ds IH]; intros t; simpl.
  - exists []. rewrite app_nil_r. repeat split. intros ? ? ? [].
  - unfold bind at 1. unfold bind at 1. rewrite removeFlow_run.
    set (t1 := t ++ [Ev_Debug (Log_RemovingOn (Device_ID d))]).
    destruct (Send_fails w t1 d (Msg_FlowMod (deleteFlow m))) as [e|] eqn:E.
    + unfold log_Err, emit.
      match goal with |- context [removeAllFlows_loop w ds m ?t2] =>
        destruct (IH t2) as (evs & -> & Hs & Hl) end.
      eexists. split.
      { subst t1. rewrite <- !app_assoc. simpl. reflexivity. }
      split.
      { simpl. rewrite Hs. reflexivity. }
      intros d' m' e' H. simpl in H. simpl.
      destruct H as [H | [H | [H | H]]]; try discriminate.
      * inversion H; subst. auto.
      * right. right. right. apply Hl with m'. exact H.
    + unfold ret.
      match goal with |- context [removeAllFlows_loop w ds m ?t2] =>
        destruct (IH t2) as (evs & -> & Hs & Hl) end.
      eexists. split.
      { subst t1. rewrite <- !app_assoc. simpl. reflexivity. }
      split.
      { simpl. rewrite Hs. reflexivity. }
      intros d' m' e' H. simpl in H. simpl.
      destruct H as [H | [H | H]]; try discriminate.
      right. right. apply Hl with m'. exact H.
Qed.

(** The per-node loop stops at its first failed send and returns it; the
    first device is always tried; with no failure every device gets the
    two DELETEs. *)
Lemma removeFlowRules_loop_run ds mac : forall t,
  exists evs r,
    removeFlowRules_loop w ds mac t = (r, t ++ evs) /\
    (forall d m e, In (Ev_Send d m (Some e)) evs -> r = Some e) /\
    (forall d0 ds', ds = d0 :: ds' ->
       In (d0, Msg_FlowMod (deleteFlow (matchSrc mac))) (sent evs)) /\
    (sends_ok w -> r = None /\ sent evs = node_deletes mac ds).
Proof.
  induction ds as [|d ds IH]; intros t; simpl.
  - exists [], None. rewrite app_nil_r. split; [reflexivity|].
    split; [intros ? ? ? []|].
    split; [discriminate|]. intros _. split; reflexivity.
  - unfold bind at 1. unfold log_Debug, emit.
    unfold bind at 1. unfold NewMatch, factory_new, bind at 1, history.
    rewrite Hfac. unfold ret at 1.
    unfold bind at 1. rewrite removeFlow_run.
    change (Match_SetSrcMAC fresh_Match mac) with (matchSrc mac).
    match goal with |- context [match Send_fails w ?t1 d ?m with _ => _ end] =>
      destruct (Send_fails w t1 d m) as [e|] eqn:E1 end.
    + eexists _, (Some e). split.
      { unfold ret. rewrite <- !app_assoc. simpl. reflexivity. }
      split.
      { intros d' m' e' H. simpl in H.
        destruct H as [H | [H | [H | []]]]; try discriminate.
        inversion H; subst. reflexivity. }
      split.
      { intros d0 ds' H. inversion H; subst. simpl. auto. }
      intros Hs. rewrite Hs in E1. discriminate.
    + unfold bind at 1. unfold bind at 1. unfold history. rewrite Hfac.
      unfold ret at 1. unfold bind at 1. rewrite removeFlow_run.
      change (Match_SetDstMAC fresh_Match mac) with (matchDst mac).
      match goal with |- context [match Send_fails w ?t1 d ?m with _ => _ end] =>
        destruct (Send_fails w t1 d m) as [e|] eqn:E2 end.
      * eexists _, (Some e). split.
        { unfold ret. rewrite <- !app_assoc. simpl. reflexivity. }
        split.
        { intros d' m' e' H. simpl in H.
          destruct H as [H | [H | [H | [H | [H | []]]]]]; try discriminate.
          inversion H; subst. reflexivity. }
        split.
        { intros d0 ds' H. inversion H; subst. simpl. auto. }
        intros Hs. rewrite Hs in E2. discriminate.
      * match goal with |- context [removeFlowRules_loop w ds mac ?t2] =>
          destruct (IH t2) as (evs & r & -> & Hr & _ & Hok) end.
        eexists _, r. split.
        { rewrite <- !app_assoc. simpl. reflexivity. }
        split.
        { intros d' m' e' H. simpl in H.
          destruct H as [H | [H | [H | [H | [H | H]]]]]; try discriminate.
          apply Hr with d' m'. exact H. }
        split.
        { intros d0 ds' H. inversion H; subst. simpl. auto. }
        intros Hs. destruct (Hok Hs) as [-> Hsent]. split; [reflexivity|].
        simpl. rewrite Hsent. reflexivity.
Qed.

(** Every node is tried, whatever failed for the nodes before it, and a
    failure is logged. *)
Lemma cleanup_loop_run ns : forall t,
  exists evs,
    cleanup_loop w ns t = (tt, t ++ evs) /\
    (forall d m e, In (Ev_Send d m (Some e)) evs ->
       exists mac, In (Ev_Err (Log_FailedRemoveNode mac e)) evs) /\
    (forall n d0 ds, In n ns -> Finder_Devices w = d0 :: ds ->
       In (d0, Msg_FlowMod (deleteFlow (matchSrc (Node_MAC n)))) (sent evs)) /\
    (sends_ok w ->
     sent evs =
       flat_map (fun n => node_deletes (Node_MAC n) (Finder_Devices w)) ns).
Proof.
  induction ns as [|n ns IH]; intros t; simpl.
  - exists []. rewrite app_nil_r. split; [reflexivity|].
    split; [intros ? ? ? []|]. split; [intros ? ? ? []|]. reflexivity.
  - unfold bind at 1. unfold log_Debug, emit.
    unfold bind at 1. unfold bind at 1. unfold removeFlowRules.
    match goal with |- context [removeFlowRules_loop w ?ds ?mac ?t1] =>
      destruct (removeFlowRules_loop_run ds mac t1)
        as (evs1 & r & -> & Hr & Hfirst & Hok) end.
    destruct r as [err|].
    + unfold log_Err, emit.
      match goal with |- context [cleanup_loop w ns ?t2] =>
        destruct (IH t2) as (evs & -> & Hl & Hn & _) end.
      exists ([Ev_Debug (Log_RemovingNode (Node_MAC n))] ++ evs1
              ++ [Ev_Err (Log_FailedRemoveNode (Node_MAC n) err)] ++ evs).
      split; [rewrite <- !app_assoc; reflexivity|]. split.
      { intros d m e H. rewrite !in_app_iff in H.
        destruct H as [[H | []] | [H | [[H | []] | H]]]; try discriminate.
        - apply Hr in H. inversion H; subst. exists (Node_MAC n).
          rewrite !in_app_iff. right. right. left. left. reflexivity.
        - destruct (Hl _ _ _ H) as [mac Hmac]. exists mac.
          rewrite !in_app_iff. auto. }
      split.
      { intros n' d0 ds [<- | Hin] Hd; rewrite !sent_app, !in_app_iff.
        - right. left. eapply Hfirst. exact Hd.
        - right. right. right. eapply Hn; eassumption. }
      intros Hs. destruct (Hok Hs) as [E _]. discriminate.
    + unfold ret.
      match goal with |- context [cleanup_loop w ns ?t2] =>
        destruct (IH t2) as (evs & -> & Hl & Hn & Hall) end.
      exists ([Ev_Debug (Log_RemovingNode (Node_MAC n))] ++ evs1 ++ evs).
      split; [rewrite <- !app_assoc; reflexivity|]. split.
      { intros d m e H. rewrite !in_app_iff in H.
        destruct H as [[H | []] | [H | H]]; try discriminate.
        - apply Hr in H. discriminate.
        - destruct (Hl _ _ _ H) as [mac Hmac]. exists mac.
          rewrite !in_app_iff. auto. }
      split.
      { intros n' d0 ds [<- | Hin] Hd; rewrite !sent_app, !in_app_iff.
        - right. left. eapply Hfirst. exact Hd.
        - right. right. eapply Hn; eassumption. }
      intros Hs. destruct (Hok Hs) as [_ E].
      rewrite !sent_app, E, (Hall Hs). reflexivity.
Qed.

End Cleanup.

Lemma clean_empty : clean [].
Proof. intros d m r []. Qed.

Lemma clean_append a b : clean a -> clean b -> clean (a ++ b).
Proof.
  intros Ha Hb d m r H. apply in_app_or in H. destruct H; eauto.
Qed.

Lemma clean_cons_debug l evs : clean evs -> clean (Ev_Debug l :: evs).
Proof. intros H d m r [E | Hin]; [discriminate | eauto]. Qed.

Lemma clean_cons_sent d m evs : clean evs -> clean (Ev_Send d m None :: evs).
Proof. intros H d' m' r [E | Hin]; [inversion E; reflexivity | eauto]. Qed.

(** *** The node path, send by send *)

Section Stops.
Variable w : World.
Hypothesis Hfac : factory_ok w.

Lemma removeFlowRules_loop_stops ds mac : forall t,
  exists evs r,
    removeFlowRules_loop w ds mac t = (r, t ++ evs) /\
    stops (node_deletes mac ds) evs r.
Proof.
  induction ds as [|d ds IH]; intros t; cbn [removeFlowRules_loop].
  - exists [], None. unfold ret. rewrite app_nil_r. split; [reflexivity|].
    split; [apply clean_empty | reflexivity].
  - cbv beta iota zeta delta [bind log_Debug emit NewMatch factory_new history ret].
    rewrite Hfac. rewrite (removeFlow_run w Hfac).
    change (Match_SetSrcMAC fresh_Match mac) with (matchSrc mac).
    cbv beta iota zeta.
    match goal with |- context [match Send_fails w ?t1 d ?m with _ => _ end] =>
      destruct (Send_fails w t1 d m) as [e|] eqn:E1 end.
    + eexists _, (Some e). split; [rewrite <- !app_assoc; reflexivity|].
      exists [Ev_Debug (Log_RemovingNodeOn mac (Device_ID d));
              Ev_Debug (Log_RemovingOn (Device_ID d))], d,
             (Msg_FlowMod (deleteFlow (matchSrc mac))),
             ((d, Msg_FlowMod (deleteFlow (matchDst mac))) :: node_deletes mac ds).
      split; [reflexivity|]. split; [|reflexivity].
      apply clean_cons_debug, clean_cons_debug, clean_empty.
    + rewrite Hfac. rewrite (removeFlow_run w Hfac).
      change (Match_SetDstMAC fresh_Match mac) with (matchDst mac).
      cbv beta iota zeta.
      match goal with |- context [match Send_fails w ?t1 d ?m with _ => _ end] =>
        destruct (Send_fails w t1 d m) as [e|] eqn:E2 end.
      * eexists _, (Some e). split; [rewrite <- !app_assoc; reflexivity|].
        exists [Ev_Debug (Log_RemovingNodeOn mac (Device_ID d));
                Ev_Debug (Log_RemovingOn (Device_ID d));
                Ev_Send d (Msg_FlowMod (deleteFlow (matchSrc mac))) None;
                Ev_Debug (Log_RemovingOn (Device_ID d))], d,
               (Msg_FlowMod (deleteFlow (matchDst mac))), (node_deletes mac ds).
        split; [reflexivity|]. split; [|reflexivity].
        apply clean_cons_debug, clean_cons_debug, clean_cons_sent,
          clean_cons_debug, clean_empty.
      * match goal with |- context [removeFlowRules_loop w ds mac ?t2] =>
          destruct (IH t2) as (evs & r & -> & Hst) end.
        set (pre := [Ev_Debug (Log_RemovingNodeOn mac (Device_ID d));
                     Ev_Debug (Log_RemovingOn (Device_ID d));
                     Ev_Send d (Msg_FlowMod (deleteFlow (matchSrc mac))) None;
                     Ev_Debug (Log_RemovingOn (Device_ID d));
                     Ev_Send d (Msg_FlowMod (deleteFlow (matchDst mac))) None]).
        assert (Hpre : clean pre).
        { apply clean_cons_debug, clean_cons_debug, clean_cons_sent,
            clean_cons_debug, clean_cons_sent, clean_empty. }
        exists (pre ++ evs), r. split; [rewrite <- !app_assoc; reflexivity|].
        destruct r as [e|]; cbn [stops] in *.
        -- destruct Hst as (evs' & d' & m' & rest & -> & Hc & Hp).
           exists (pre ++ evs'), d', m', rest. rewrite app_assoc.
           split; [reflexivity|]. split; [apply clean_append; assumption|].
           rewrite <- app_assoc, sent_app. cbn [node_deletes flat_map].
           fold (node_deletes mac ds). rewrite Hp. reflexivity.
        -- destruct Hst as [Hc Hs]. split; [apply clean_append; assumption|].
           rewrite sent_app, Hs. reflexivity.
Qed.

Lemma cleanup_loop_nodes ns : forall t,
  exists segs,
    cleanup_loop w ns t = (tt, t ++ List.concat segs) /\
    Forall2 (node_run (Finder_Devices w)) ns segs.
Proof.
  induction ns as [|n ns IH]; intros t; cbn [cleanup_loop].
  - exists []. unfold ret. simpl. rewrite app_nil_r. split; [reflexivity | constructor].
  - cbv beta iota zeta delta [bind log_Debug log_Err emit removeFlowRules].
    match goal with |- context [removeFlowRules_loop w ?ds ?mac ?t1] =>
      destruct (removeFlowRules_loop_stops ds mac t1) as (evs & r & -> & Hst) end.
    destruct r as [e|].
    + match goal with |- context [cleanup_loop w ns ?t2] =>
        destruct (IH t2) as (segs & -> & Hsegs) end.
      exists ((Ev_Debug (Log_RemovingNode (Node_MAC n)) :: evs
               ++ [Ev_Err (Log_FailedRemoveNode (Node_MAC n) e)]) :: segs).
      split; [cbn [List.concat app]; rewrite <- ?app_assoc; cbn [app]; rewrite <- ?app_assoc; reflexivity|].
      constructor; [|exact Hsegs]. exists evs, (Some e). split; [reflexivity | exact Hst].
    + unfold ret.
      match goal with |- context [cleanup_loop w ns ?t2] =>
        destruct (IH t2) as (segs & -> & Hsegs) end.
      exists ((Ev_Debug (Log_RemovingNode (Node_MAC n)) :: evs ++ []) :: segs).
      split; [cbn [List.concat app]; rewrite app_nil_r, <- ?app_assoc; cbn [app]; rewrite <- ?app_assoc; reflexivity|].
      constructor; [|exact Hsegs]. exists evs, None. split; [reflexivity | exact Hst].
Qed.
End Stops.

Lemma cleanup_nodes_run w port t :
  factory_ok w -> Finder_IsEdge w port = false ->
  exists segs,
    cleanup w port t =
      (None, t ++ Ev_Debug (Log_CleaningUp port) :: List.concat segs) /\
    Forall2 (node_run (Finder_Devices w)) (Port_Nodes w port) segs.
Proof.
  intros Hf He. unfold cleanup. rewrite He.
  cbv beta iota zeta delta [bind log_Debug emit].
  match goal with |- context [cleanup_loop w ?ns ?t1] =>
    destruct (cleanup_loop_nodes w Hf ns t1) as (segs & -> & Hsegs) end.
  exists segs. unfold ret. rewrite <- app_assoc. split; [reflexivity | exact Hsegs].
Qed.

(** [cleanup] as a whole, when the factory does not fail. *)
Lemma cleanup_run w port t :
  factory_ok w ->
  exists evs,
    cleanup w port t = (None, t ++ evs) /\
    (forall d m e, In (Ev_Send d m (Some e)) evs ->
       In (Ev_Err (Log_FailedRemoveOn (Device_ID d) e)) evs \/
       exists mac, In (Ev_Err (Log_FailedRemoveNode mac e)) evs) /\
    (Finder_IsEdge w port = true ->
     sent evs = map (fun d => (d, Msg_FlowMod (deleteFlow fresh_Match)))
                    (Finder_Devices w)) /\
    (Finder_IsEdge w port = false ->
     (forall n d0 ds, In n (Port_Nodes w port) -> Finder_Devices w = d0 :: ds ->
        In (d0, Msg_FlowMod (deleteFlow (matchSrc (Node_MAC n)))) (sent evs)) /\
     (sends_ok w ->
      sent evs = flat_map (fun n => node_deletes (Node_MAC n) (Finder_Devices w))
                          (Port_Nodes w port))).
Proof.
  intros Hf. unfold cleanup. unfold bind at 1. unfold log_Debug, emit.
  destruct (Finder_IsEdge w port).
  - unfold removeAllFlows.
    unfold bind at 1. unfold log_Debug, emit.
    unfold bind at 1. unfold NewMatch, factory_new, bind at 1, history.
    rewrite Hf. unfold ret at 1. unfold bind at 1.
    match goal with |- context [removeAllFlows_loop w ?ds ?m ?t1] =>
      destruct (removeAllFlows_loop_run w Hf ds m t1) as (evs & -> & Hs & Hl) end.
    exists ([Ev_Debug (Log_CleaningUp port)] ++ [Ev_Debug Log_RemovingAll] ++ evs).
    split; [unfold ret; rewrite <- !app_assoc; reflexivity|]. split.
    { intros d m e H. left. rewrite !in_app_iff in H |- *.
      destruct H as [[H | []] | [[H | []] | H]]; try discriminate.
      right. right. eapply Hl. exact H. }
    split; [|discriminate].
    intros _. rewrite !sent_app, Hs. reflexivity.
  - unfold bind at 1.
    match goal with |- context [cleanup_loop w ?ns ?t1] =>
      destruct (cleanup_loop_run w Hf ns t1) as (evs & -> & Hl & Hn & Hall) end.
    exists ([Ev_Debug (Log_CleaningUp port)] ++ evs).
    split; [unfold ret; rewrite <- !app_assoc; reflexivity|]. split.
    { intros d m e H. right. rewrite !in_app_iff in H.
      destruct H as [[H | []] | H]; try discriminate.
      destruct (Hl _ _ _ H) as [mac Hmac]. exists mac.
      rewrite in_app_iff. right. exact Hmac. }
    split; [discriminate|].
    intros _. split.
    + intros n d0 ds Hin Hd. rewrite sent_app. simpl. eapply Hn; eassumption.
    + intros Hs. rewrite sent_app. simpl. apply Hall, Hs.
Qed.

(** ** Packet-in handling *)

(** C1 (as amended): when the destination is a learned, non-broadcast host
    on another device and the finder has no path to it (nil or empty),
    [ProcessPacket] sends nothing, only logs the missing path, and returns
    drop = true with a nil error. *)
Theorem C1_no_path_drop_true w eth ingress packet n t :
  MarshalBinary w eth = inr packet ->
  Finder_Node w (DstMAC eth) = Some n ->
  DstMAC eth <> [255; 255; 255; 255; 255; 255] ->
  Device_ID (Port_Device ingress) <> Device_ID (Port_Device (Node_Port n)) ->
  (Finder_Path w (Device_ID (Port_Device ingress))
                 (Device_ID (Port_Device (Node_Port n))) = None \/
   Finder_Path w (Device_ID (Port_Device ingress))
                 (Device_ID (Port_Device (Node_Port n))) = Some []) ->
  ProcessPacket w eth ingress t =
    ((true, None),
     t ++ [Ev_Debug (Log_NotFoundPath (SrcMAC eth) (DstMAC eth))]).
Proof.
  intros Hm Hn Hb Hd Hp.
  unfold ProcessPacket. rewrite Hm, Hn.
  destruct (isBroadcast eth) eqn:E.
  { apply isBroadcast_true in E. contradiction. }
  rewrite (proj2 (Z.eqb_neq _ _) Hd).
  unfold switching; cbn [L2Switch.ingress L2Switch.egress L2Switch.ethernet].
  destruct Hp as [-> | ->]; reflexivity.
Qed.

Lemma C1_no_path_drop_true_witness :
  ProcessPacket (Examples.world Examples.devB false None)
      (Examples.eth Examples.macD) (Examples.port Examples.devA 3) [] =
    ((true, None),
     [Ev_Debug (Log_NotFoundPath Examples.macS Examples.macD)]).
Proof.
  apply (C1_no_path_drop_true (Examples.world Examples.devB false None)
           (Examples.eth Examples.macD) (Examples.port Examples.devA 3)
           (Examples.macD ++ Examples.macS ++ [8; 0] ++ [1; 2; 3])
           {| Node_MAC := Examples.macD;
              Node_Port := Examples.port Examples.devB 5 |} []).
  - reflexivity.
  - reflexivity.
  - discriminate.
  - discriminate.
  - left. reflexivity.
Defined.

(** C1 as worded fails: host D is learned on switch B, the packet comes in
    on switch A, no path joins them, and the handler returns drop = true,
    not drop = false. *)
Lemma C1_counterexample :
  let w := Examples.world Examples.devB false None in
  let eth := Examples.eth Examples.macD in
  let ingress := Examples.port Examples.devA 3 in
  Finder_Node w (DstMAC eth)
    = Some {| Node_MAC := Examples.macD;
              Node_Port := Examples.port Examples.devB 5 |} /\
  Device_ID (Port_Device ingress) <> Device_ID Examples.devB /\
  Finder_Path w (Device_ID (Port_Device ingress)) (Device_ID Examples.devB) = None /\
  ~ (fst (ProcessPacket w eth ingress []) = (false, None)).
Proof.
  repeat split; try discriminate.
Qed.

(** C2 (as amended): when the destination is a learned, non-broadcast host
    on the ingress device, and neither the factory nor a send fails,
    [ProcessPacket] first sends on the ingress device the ADD flow-mod
    matching (in-port, ether-type, source MAC, destination MAC) with the
    single action OUTPUT(p_out), priority 10 and idle timeout 30; a second
    ADD flow-mod on the ingress device follows; then one packet-out through
    p_out carrying the packet's bytes; it returns drop = true and no error. *)
Theorem C2_local_switching w eth ingress packet n t :
  factory_ok w -> sends_ok w ->
  MarshalBinary w eth = inr packet ->
  Finder_Node w (DstMAC eth) = Some n ->
  DstMAC eth <> [255; 255; 255; 255; 255; 255] ->
  Device_ID (Port_Device ingress) = Device_ID (Port_Device (Node_Port n)) ->
  let p := {| device := Port_Device ingress;
              etherType := EtherType eth;
              inPort := Port_Number ingress;
              outPort := Port_Number (Node_Port n);
              srcMAC := SrcMAC eth;
              dstMAC := DstMAC eth |} in
  exists second : FlowMod,
    FlowMod_Command second = FlowAdd /\
    ProcessPacket w eth ingress t =
      ((true, None),
       t ++ [Ev_Send (Port_Device ingress) (Msg_FlowMod (forwardFlow p)) None;
             Ev_Send (Port_Device ingress) (Msg_FlowMod second) None;
             Ev_Send (Port_Device (Node_Port n))
               (Msg_PacketOut (directOut (Node_Port n) packet)) None]).
Proof.
  intros Hf Hs Hm Hn Hb Hd p.
  exists (forwardFlow p). split; [reflexivity|].
  unfold ProcessPacket. rewrite Hm, Hn.
  destruct (isBroadcast eth) eqn:E.
  { apply isBroadcast_true in E. contradiction. }
  rewrite (proj2 (Z.eqb_eq _ _) Hd).
  unfold localSwitching, setFlowRule, bind; cbn [L2Switch.ingress L2Switch.egress L2Switch.ethernet L2Switch.rawPacket].
  rewrite installFlow_run, Hs by assumption.
  rewrite installFlow_run, Hs by assumption.
  rewrite packetout_run, Hs by assumption.
  unfold ret. rewrite <- !app_assoc. reflexivity.
Qed.

Lemma C2_local_switching_witness :
  exists second : FlowMod,
    FlowMod_Command second = FlowAdd /\
    ProcessPacket (Examples.world Examples.devA false None)
        (Examples.eth Examples.macD) (Examples.port Examples.devA 3) [] =
      ((true, None),
       [Ev_Send Examples.devA
          (Msg_FlowMod
             (forwardFlow {| device := Examples.devA; etherType := 0x0800;
                             inPort := 3; outPort := 5;
                             srcMAC := Examples.macS;
                             dstMAC := Examples.macD |})) None;
        Ev_Send Examples.devA (Msg_FlowMod second) None;
        Ev_Send Examples.devA
          (Msg_PacketOut
             (directOut (Examples.port Examples.devA 5)
                (Examples.macD ++ Examples.macS ++ [8; 0] ++ [1; 2; 3]))) None]).
Proof.
  apply (C2_local_switching (Examples.world Examples.devA false None)
           (Examples.eth Examples.macD) (Examples.port Examples.devA 3)
           (Examples.macD ++ Examples.macS ++ [8; 0] ++ [1; 2; 3])
           {| Node_MAC := Examples.macD;
              Node_Port := Examples.port Examples.devA 5 |} []).
  - intros ? ?. reflexivity.
  - intros ? ? ?. reflexivity.
  - reflexivity.
  - reflexivity.
  - discriminate.
  - reflexivity.
Defined.

(** C2 as worded fails: with host D learned on port 5 of switch A and a
    packet for D coming in on port 3 of switch A, the handler sends two
    flow-mods, not exactly one. *)
Lemma C2_counterexample :
  let w := Examples.world Examples.devA false None in
  let eth := Examples.eth Examples.macD in
  let ingress := Examples.port Examples.devA 3 in
  Finder_Node w (DstMAC eth)
    = Some {| Node_MAC := Examples.macD;
              Node_Port := Examples.port Examples.devA 5 |} /\
  ~ (List.length (flowmods (sent (snd (ProcessPacket w eth ingress [])))) = 1%nat).
Proof.
  split; [reflexivity | discriminate].
Qed.

(** C3: [setFlowRule] never sends anything but the forward flow of its
    parameters on their device, at most twice, so a reverse flow that
    differs from the forward one is never installed; and when the factory
    does not fail and the first send succeeds, it sends that same forward
    flow exactly twice and returns the outcome of the second send. *)
Theorem C3_setFlowRule_forward_twice w p t :
  let fwd := Msg_FlowMod (forwardFlow p) in
  (exists evs,
      snd (setFlowRule w p t) = t ++ evs /\
      (List.length evs <= 2)%nat /\
      (forall ev, In ev evs -> exists r, ev = Ev_Send (device p) fwd r) /\
      (forwardFlow (reverseParam p) <> forwardFlow p ->
       forall d, ~ In (d, forwardFlow (reverseParam p)) (flowmods (sent evs)))) /\
  (factory_ok w ->
   Send_fails w t (device p) fwd = None ->
   let t1 := t ++ [Ev_Send (device p) fwd None] in
   setFlowRule w p t =
     (Send_fails w t1 (device p) fwd,
      t1 ++ [Ev_Send (device p) fwd (Send_fails w t1 (device p) fwd)])).
Proof.
  intros fwd. split.
  - assert (Hin : forall evs : Trace,
               (forall ev, In ev evs -> exists r, ev = Ev_Send (device p) fwd r) ->
               forwardFlow (reverseParam p) <> forwardFlow p ->
               forall d, ~ In (d, forwardFlow (reverseParam p)) (flowmods (sent evs))).
    { induction evs as [|ev evs IH]; intros Hall Hne d; [intros []|].
      destruct (Hall ev (or_introl eq_refl)) as [r ->]. simpl.
      intros [E | E].
      - inversion E. congruence.
      - revert E. apply IH; [|assumption].
        intros ev' H'. apply Hall. right. assumption. }
    unfold setFlowRule, bind.
    destruct (installFlow_cases w p t) as [[e ->] | ->].
    + exists []. rewrite app_nil_r. split; [reflexivity|].
      split; [simpl; lia|]. split; [intros ev [] | intros _ d []].
    + destruct (Send_fails w t (device p) (Msg_FlowMod (forwardFlow p))) as [e|] eqn:E1.
      * eexists. split; [reflexivity|]. split; [simpl; lia|]. split.
        -- intros ev [<- | []]. eexists. reflexivity.
        -- apply Hin. intros ev [<- | []]. eexists. reflexivity.
      * match goal with |- context [installFlow w p ?t1] =>
          destruct (installFlow_cases w p t1) as [[e ->] | ->] end.
        -- eexists. split; [reflexivity|]. split; [simpl; lia|]. split.
           ++ intros ev [<- | []]. eexists. reflexivity.
           ++ apply Hin. intros ev [<- | []]. eexists. reflexivity.
        -- eexists. split; [rewrite <- app_assoc; reflexivity|].
           split; [simpl; lia|]. split.
           ++ intros ev [<- | [<- | []]]; eexists; reflexivity.
           ++ apply Hin. intros ev [<- | [<- | []]]; eexists; reflexivity.
  - intros Hf H1 t1. unfold setFlowRule, bind.
    rewrite installFlow_run by assumption. fold fwd. rewrite H1.
    rewrite installFlow_run by assumption. reflexivity.
Qed.

Lemma C3_setFlowRule_forward_twice_witness :
  let w := Examples.world Examples.devA false None in
  let p := {| device := Examples.devA; etherType := 0x0800;
              inPort := 3; outPort := 5;
              srcMAC := Examples.macS; dstMAC := Examples.macD |} in
  setFlowRule w p [] =
    (None,
     [Ev_Send Examples.devA (Msg_FlowMod (forwardFlow p)) None;
      Ev_Send Examples.devA (Msg_FlowMod (forwardFlow p)) None]) /\
  ~ In (Examples.devA, forwardFlow (reverseParam p))
       (flowmods (sent (snd (setFlowRule w p [])))).
Proof.
  intros w p.
  destruct (C3_setFlowRule_forward_twice w p []) as [[evs (Ht & _ & _ & Hrev)] Hrun].
  split.
  - apply Hrun.
    + intros ? ?. reflexivity.
    + reflexivity.
  - rewrite Ht. simpl. apply Hrev. discriminate.
Defined.

(** C4: when the destination MAC is the broadcast address or no node is
    learned for it, and the factory does not fail, [ProcessPacket] makes
    exactly one send: a packet-out on the ingress device with in-port the
    ingress port, the single action OUTPUT(FLOOD) and the packet's bytes;
    it sends no flow-mod and returns drop = true (with the outcome of that
    send as its error). *)
Theorem C4_flood_broadcast_or_unknown w eth ingress packet t :
  factory_ok w ->
  MarshalBinary w eth = inr packet ->
  (DstMAC eth = [255; 255; 255; 255; 255; 255] \/
   Finder_Node w (DstMAC eth) = None) ->
  let out := Msg_PacketOut (floodOut ingress packet) in
  let t1 := t ++ [Ev_Debug (Log_Broadcasting (DstMAC eth))] in
  let r := Send_fails w t1 (Port_Device ingress) out in
  ProcessPacket w eth ingress t =
    ((true, r), t1 ++ [Ev_Send (Port_Device ingress) out r]) /\
  sent (snd (ProcessPacket w eth ingress t)) =
    sent t ++ [(Port_Device ingress, out)] /\
  flowmods (sent (snd (ProcessPacket w eth ingress t))) = flowmods (sent t).
Proof.
  intros Hf Hm Hb out t1 r.
  assert (Hflood : (log_Debug (Log_Broadcasting (DstMAC eth));;
                    err <- flood w ingress packet;; ret (true, err))%act t =
                   ((true, r), t1 ++ [Ev_Send (Port_Device ingress) out r])).
  { unfold bind at 1. unfold log_Debug, emit. unfold bind.
    rewrite flood_run by assumption. reflexivity. }
  assert (Hrun : ProcessPacket w eth ingress t =
                 ((true, r), t1 ++ [Ev_Send (Port_Device ingress) out r])).
  { unfold ProcessPacket. rewrite Hm.
    destruct Hb as [Hb | Hb].
    - apply isBroadcast_true in Hb. rewrite Hb.
      destruct (Finder_Node w (DstMAC eth)); exact Hflood.
    - rewrite Hb. exact Hflood. }
  split; [exact Hrun|].
  rewrite Hrun. cbn [snd]. subst t1.
  rewrite !sent_app. simpl. rewrite app_nil_r.
  split; [reflexivity|].
  rewrite flowmods_app. simpl. apply app_nil_r.
Qed.

Lemma C4_flood_broadcast_or_unknown_witness :
  let w := Examples.world Examples.devA false None in
  let ingress := Examples.port Examples.devB 3 in
  let packet := Examples.broadcast ++ Examples.macS ++ [8; 0] ++ [1; 2; 3] in
  ProcessPacket w (Examples.eth Examples.broadcast) ingress [] =
    ((true, None),
     [Ev_Debug (Log_Broadcasting Examples.broadcast);
      Ev_Send Examples.devB (Msg_PacketOut (floodOut ingress packet)) None]).
Proof.
  intros w ingress packet.
  refine (proj1 (C4_flood_broadcast_or_unknown w (Examples.eth Examples.broadcast)
                   ingress packet [] _ _ _)).
  - intros ? ?. reflexivity.
  - reflexivity.
  - left. reflexivity.
Defined.

(** ** Cleanup on port or link down *)

(** C5: whatever fails, every message the cleanup path hands to a device is
    a flow-mod with command DELETE, cookie mask exactly 1<<63 and table ID
    0xFF; such a DELETE selects no rule whose cookie has bit 63 set. *)
Theorem C5_cleanup_deletes_spare_table_miss w port t :
  exists evs,
    snd (cleanup w port t) = t ++ evs /\
    forall d m r, In (Ev_Send d m r) evs ->
      exists f,
        m = Msg_FlowMod f /\
        FlowMod_Command f = FlowDelete /\
        FlowMod_CookieMask f = Z.shiftl 1 63 /\
        FlowMod_TableID f = 0xFF /\
        forall cookie, Z.testbit cookie 63 = true ->
                       cookie_selects f cookie = false.
Proof.
  destruct (cleanup_emits w port t) as (evs & Ht & Hall & _).
  exists evs. split; [exact Ht|].
  intros d m r Hin.
  rewrite Forall_forall in Hall. specialize (Hall _ Hin).
  destruct Hall as [match_ ->].
  exists (deleteFlow match_). repeat split.
  intros cookie. apply deleteFlow_safe.
Qed.

(** C6 (as amended): on a PORT_STATUS reporting port-down or link-down for
    a port the device has, with a factory that does not fail, the handler
    returns nil. If the port is an inter-switch edge, it hands exactly one
    wildcard-match DELETE to each known switch, in order, whatever the
    sends return. Otherwise it goes through the nodes behind the port, and
    for each node through the known switches in order, sending two DELETEs
    per switch (the node's MAC as source, then as destination) up to the
    first DELETE that fails for that node, which is the last one sent for
    it; when no send fails, every known switch gets exactly the two
    DELETEs of every node. *)
Theorem C6_port_down_cleanup w device status port t :
  factory_ok w ->
  Status_IsPortDown status || Status_IsLinkDown status = true ->
  Device_Port w device (Status_Number status) = Some port ->
  (Finder_IsEdge w port = true ->
   fst (ProcessEvent w device status t) = None /\
   sent (snd (ProcessEvent w device status t)) =
     sent t ++ map (fun d => (d, Msg_FlowMod (deleteFlow fresh_Match)))
                   (Finder_Devices w)) /\
  (Finder_IsEdge w port = false ->
   fst (ProcessEvent w device status t) = None /\
   (exists segs,
      snd (ProcessEvent w device status t) =
        t ++ Ev_Debug (Log_CleaningUp port) :: List.concat segs /\
      Forall2 (node_run (Finder_Devices w)) (Port_Nodes w port) segs) /\
   (sends_ok w ->
    sent (snd (ProcessEvent w device status t)) =
      sent t ++ flat_map (fun n => node_deletes (Node_MAC n) (Finder_Devices w))
                         (Port_Nodes w port))).
Proof.
  intros Hf Hdown Hport.
  unfold ProcessEvent. rewrite Hdown, Hport. split.
  - intros He.
    destruct (cleanup_run w port t Hf) as (evs & -> & _ & Hedge & _).
    cbn [fst snd]. rewrite sent_app, (Hedge He). split; reflexivity.
  - intros He.
    destruct (cleanup_nodes_run w port t Hf He) as (segs & Hrun & Hsegs).
    split; [rewrite Hrun; reflexivity|]. split.
    + exists segs. rewrite Hrun. split; [reflexivity | exact Hsegs].
    + intros Hs.
      destruct (cleanup_run w port t Hf) as (evs & -> & _ & _ & Hnode).
      destruct (Hnode He) as [_ Hall].
      cbn [snd]. rewrite sent_app, (Hall Hs). reflexivity.
Qed.

Lemma C6_port_down_cleanup_witness :
  let down := {| Status_Number := 5; Status_IsPortDown := false;
                 Status_IsLinkDown := true |} in
  let trunk := Examples.world Examples.devB true None in
  let host := Examples.world Examples.devB false None in
  (fst (ProcessEvent trunk Examples.devB down []) = None /\
   sent (snd (ProcessEvent trunk Examples.devB down [])) =
     [(Examples.devA, Msg_FlowMod (deleteFlow fresh_Match));
      (Examples.devB, Msg_FlowMod (deleteFlow fresh_Match))]) /\
  (fst (ProcessEvent host Examples.devB down []) = None /\
   sent (snd (ProcessEvent host Examples.devB down [])) =
     [(Examples.devA, Msg_FlowMod (deleteFlow (matchSrc Examples.macD)));
      (Examples.devA, Msg_FlowMod (deleteFlow (matchDst Examples.macD)));
      (Examples.devB, Msg_FlowMod (deleteFlow (matchSrc Examples.macD)));
      (Examples.devB, Msg_FlowMod (deleteFlow (matchDst Examples.macD)))]).
Proof.
  intros down trunk host. split.
  - apply (C6_port_down_cleanup trunk Examples.devB down
             (Examples.port Examples.devB 5) []).
    + intros ? ?. reflexivity.
    + reflexivity.
    + reflexivity.
    + reflexivity.
  - destruct (C6_port_down_cleanup host Examples.devB down
                (Examples.port Examples.devB 5) []) as [_ Hnode].
    + intros ? ?. reflexivity.
    + reflexivity.
    + reflexivity.
    + destruct (Hnode eq_refl) as (Hres & _ & Hall).
      split; [exact Hres|]. apply Hall. intros ? ? ?. reflexivity.
Defined.

(** C6 as worded fails: host D sits behind port 5 of switch B, switches A
    and B are known, and sends to A fail. Port 5 of B goes down: the
    source-MAC DELETE on A is sent and fails, and neither the second
    DELETE on A nor any DELETE on B follows, so not every known switch
    gets two DELETEs. *)
Lemma C6_counterexample :
  let w := Examples.world Examples.devB false (Some 1) in
  let down := {| Status_Number := 5; Status_IsPortDown := true;
                 Status_IsLinkDown := false |} in
  Device_Port w Examples.devB 5 = Some (Examples.port Examples.devB 5) /\
  Finder_IsEdge w (Examples.port Examples.devB 5) = false /\
  Port_Nodes w (Examples.port Examples.devB 5) =
    [{| Node_MAC := Examples.macD; Node_Port := Examples.port Examples.devB 5 |}] /\
  Finder_Devices w = [Examples.devA; Examples.devB] /\
  ~ (sent (snd (ProcessEvent w Examples.devB down [])) =
       node_deletes Examples.macD [Examples.devA; Examples.devB]).
Proof.
  repeat split. discriminate.
Qed.

(** C7 (as amended): with a factory that does not fail, cleanup returns
    nil whatever sends fail, and every failed send is logged as an error.
    On the edge path each known switch still gets its DELETE. On the node
    path the trace splits into one run per node behind the port, in
    order: each run goes through the node's DELETEs and, when one fails,
    that failed send is the last event of the run before its error line,
    so the node's remaining DELETEs and switches are skipped, and the run
    of the next node follows; each node still gets its first DELETE (on
    the first known switch), whatever failed for other nodes. *)
Theorem C7_cleanup_best_effort w port t :
  factory_ok w ->
  exists evs,
    cleanup w port t = (None, t ++ evs) /\
    (forall d m e, In (Ev_Send d m (Some e)) evs ->
       In (Ev_Err (Log_FailedRemoveOn (Device_ID d) e)) evs \/
       exists mac, In (Ev_Err (Log_FailedRemoveNode mac e)) evs) /\
    (Finder_IsEdge w port = true ->
     forall d, In d (Finder_Devices w) ->
       In (d, Msg_FlowMod (deleteFlow fresh_Match)) (sent evs)) /\
    (Finder_IsEdge w port = false ->
     (forall n d0 ds, In n (Port_Nodes w port) -> Finder_Devices w = d0 :: ds ->
        In (d0, Msg_FlowMod (deleteFlow (matchSrc (Node_MAC n)))) (sent evs)) /\
     exists segs,
       evs = Ev_Debug (Log_CleaningUp port) :: List.concat segs /\
       Forall2 (node_run (Finder_Devices w)) (Port_Nodes w port) segs).
Proof.
  intros Hf.
  destruct (cleanup_run w port t Hf) as (evs & Hrun & Hlog & Hedge & Hnode).
  exists evs. split; [exact Hrun|]. split; [exact Hlog|]. split.
  - intros He d Hd. rewrite (Hedge He).
    apply in_map_iff. exists d. split; [reflexivity | exact Hd].
  - intros He. split; [apply (Hnode He)|].
    destruct (cleanup_nodes_run w port t Hf He) as (segs & Hrun' & Hsegs).
    exists segs. split; [|exact Hsegs].
    rewrite Hrun in Hrun'. injection Hrun' as Heq.
    apply app_inv_head in Heq. exact Heq.
Qed.

Lemma C7_cleanup_best_effort_witness :
  exists evs,
    cleanup (Examples.world Examples.devB true (Some 1))
        (Examples.port Examples.devB 5) [] = (None, evs) /\
    In (Ev_Err (Log_FailedRemoveOn 1 (Err_External "write failed"))) evs /\
    In (Examples.devB, Msg_FlowMod (deleteFlow fresh_Match)) (sent evs).
Proof.
  destruct (C7_cleanup_best_effort (Examples.world Examples.devB true (Some 1))
              (Examples.port Examples.devB 5) [])
    as (evs & Hrun & Hlog & Hedge & _).
  - intros ? ?. reflexivity.
  - exists evs. split; [exact Hrun|]. split.
    + destruct (Hlog Examples.devA (Msg_FlowMod (deleteFlow fresh_Match))
                  (Err_External "write failed")) as [H | [mac H]].
      * injection Hrun as <-. simpl. auto.
      * exact H.
      * injection Hrun as <-. simpl in H.
        repeat (destruct H as [H | H]; [discriminate|]). destruct H.
    + apply Hedge; [reflexivity | simpl; auto].
Defined.

(** C7 as worded fails: host D sits behind port 5 of switch B, switches A
    and B are known, and sends to A fail. The first DELETE for D, on A,
    fails; the remaining switch B is then never tried. *)
Lemma C7_counterexample :
  let w := Examples.world Examples.devB false (Some 1) in
  let port := Examples.port Examples.devB 5 in
  Port_Nodes w port = [{| Node_MAC := Examples.macD; Node_Port := port |}] /\
  Finder_Devices w = [Examples.devA; Examples.devB] /\
  sent (snd (cleanup w port [])) =
    [(Examples.devA, Msg_FlowMod (deleteFlow (matchSrc Examples.macD)))] /\
  ~ (exists m, In (Examples.devB, m) (sent (snd (cleanup w port [])))).
Proof.
  repeat split.
  intros [m [H | []]]. discriminate.
Qed.

End L2SwitchSpec.

Module ManagerSpec.
Import Manager.

(** ** The HELLO handler *)

(** C8 (as amended): the HELLO handler rejects wire version 0, accepts
    version 1, and accepts version 4 as well: it accepts exactly the
    versions that are at least 1. *)
Theorem C8_hello_versions :
  handleHelloMessage {| Version := 0 |} = Some (Err_UnsupportedVersion 0) /\
  handleHelloMessage {| Version := 1 |} = None /\
  handleHelloMessage {| Version := 4 |} = None /\
  forall msg, handleHelloMessage msg = None <-> 1 <= Version msg.
Proof.
  repeat split; unfold handleHelloMessage in *.
  - destruct (Z.ltb_spec (Version msg) 1); [discriminate | lia].
  - intros H. destruct (Z.ltb_spec (Version msg) 1); [lia | reflexivity].
Qed.

(** C8 as worded fails: a HELLO with wire version 4 is not rejected. *)
Lemma C8_counterexample :
  ~ (handleHelloMessage {| Version := 4 |} <> None).
Proof.
  intros H. apply H. reflexivity.
Qed.

(** ** The send paths *)

Section SendPaths.
Variables FlowMatch FlowAction Transceiver : Type.
Variable w : World FlowMatch FlowAction Transceiver.

(** C9: once the transceiver is unset, each of the three send paths
    returns [ErrDisconnected] and leaves the trace as it was: nothing is
    sent. *)
Theorem C9_send_paths_disconnected (r : Manager Transceiver)
    (flow : FlowRule FlowMatch FlowAction) (match_ : FlowMatch)
    (inPort : Z) (actions : list FlowAction) (packet : list Z)
    (t : list (Event FlowMatch FlowAction Transceiver)) :
  openflow r = None ->
  InstallFlowRule w r flow t = (Some ErrDisconnected, t) /\
  RemoveFlowRule w r match_ t = (Some ErrDisconnected, t) /\
  SendPacketOut w r inPort actions packet t = (Some ErrDisconnected, t).
Proof.
  intros H. unfold InstallFlowRule, RemoveFlowRule, SendPacketOut.
  rewrite H. repeat split.
Qed.

(** C10: whatever [InstallFlowRule] hands to the transceiver is a flow-mod
    with command ADD, both flags SendFlowRemoved and CheckOverlap set, and
    the rule's own match, actions, idle timeout and hard timeout; on a
    connected manager it hands over exactly one such message and returns
    what the transceiver returned. *)
Theorem C10_install_flow_rule_message (r : Manager Transceiver)
    (flow : FlowRule FlowMatch FlowAction)
    (t : list (Event FlowMatch FlowAction Transceiver)) :
  let fmod :=
    {| Mod_Match := Rule_Match flow;
       Mod_Command := OFPFC_ADD;
       Mod_IdleTimeout := Rule_IdleTimeout flow;
       Mod_HardTimeout := Rule_HardTimeout flow;
       Mod_Flags := {| SendFlowRemoved := true; CheckOverlap := true |};
       Mod_Actions := Rule_Actions flow |} in
  exists evs,
    snd (InstallFlowRule w r flow t) = t ++ evs /\
    (forall ev, In ev evs ->
       exists xcvr res, ev = Ev_SendFlowModify xcvr fmod res) /\
    (forall xcvr, openflow r = Some xcvr ->
       evs = [Ev_SendFlowModify xcvr fmod (fst (InstallFlowRule w r flow t))] /\
       fst (InstallFlowRule w r flow t) = SendFlowModify_fails _ _ _ w t xcvr fmod).
Proof.
  intros fmod. unfold InstallFlowRule.
  destruct (openflow r) as [xcvr|].
  - eexists. split; [reflexivity|]. split.
    + intros ev [<- | []]. eexists _, _. reflexivity.
    + intros x [= <-]. split; reflexivity.
  - exists []. split; [symmetry; apply app_nil_r|]. split.
    + intros ev [].
    + discriminate.
Qed.

End SendPaths.

Lemma C9_send_paths_disconnected_witness :
  let w : World Z Z Z :=
    {| SendFlowModify_fails := fun _ _ _ => None;
       SendPacketOut_fails := fun _ _ _ _ _ => None |} in
  let r : Manager Z := {| openflow := None; DPID := 1; AuxID := 0 |} in
  let flow : FlowRule Z Z :=
    {| Rule_Match := 7; Rule_Actions := [40; 41];
       Rule_IdleTimeout := 30; Rule_HardTimeout := 0 |} in
  InstallFlowRule w r flow [] = (Some ErrDisconnected, []) /\
  RemoveFlowRule w r 7 [] = (Some ErrDisconnected, []) /\
  SendPacketOut w r 3 [40] [1; 2; 3] [] = (Some ErrDisconnected, []).
Proof.
  intros w r flow.
  apply (C9_send_paths_disconnected Z Z Z w r flow 7 3 [40] [1; 2; 3] []).
  reflexivity.
Defined.

End ManagerSpec.

(** * Further properties *)

Section Runs.
Context {Ev : Type}.

Lemma runs_ret {A} (R : list Ev -> A -> Prop) (a : A) : R [] a -> runs R (ret a).
Proof.
  intros H t. exists [], a. rewrite app_nil_r. split; [reflexivity | exact H].
Qed.

Lemma runs_bind {A B} (R1 : list Ev -> A -> Prop) (R : list Ev -> B -> Prop)
    (m : Act Ev A) (k : A -> Act Ev B) :
  runs R1 m ->
  (forall a evs1, R1 evs1 a -> runs (fun evs2 b => R (evs1 ++ evs2) b) (k a)) ->
  runs R (bind m k).
Proof.
  intros Hm Hk t. unfold bind.
  destruct (Hm t) as (evs1 & a & -> & H1).
  destruct (Hk a evs1 H1 (t ++ evs1)) as (evs2 & b & -> & H2).
  exists (evs1 ++ evs2), b. rewrite app_assoc. split; [reflexivity | exact H2].
Qed.

Lemma runs_weaken {A} (R R' : list Ev -> A -> Prop) (m : Act Ev A) :
  runs R m -> (forall evs a, R evs a -> R' evs a) -> runs R' m.
Proof.
  intros Hm HR t. destruct (Hm t) as (evs & a & E & H).
  exists evs, a. split; [exact E | apply HR, H].
Qed.

Lemma runs_emit (e : Ev) : runs (fun evs _ => evs = [e]) (emit e).
Proof. intros t. exists [e], tt. split; reflexivity. Qed.

Lemma runs_history : runs (fun evs (_ : list Ev) => evs = []) history.
Proof. intros t. exists [], t. rewrite app_nil_r. split; reflexivity. Qed.
End Runs.

Lemma subseq_refl {A} (l : list A) : subseq l l.
Proof. induction l; [apply subseq_nil | apply subseq_keep; assumption]. Qed.

Lemma subseq_app {A} (a1 a2 b1 b2 : list A) :
  subseq a1 b1 -> subseq a2 b2 -> subseq (a1 ++ a2) (b1 ++ b2).
Proof.
  intros H1 H2. induction H1; simpl;
    [assumption | apply subseq_skip; assumption | apply subseq_keep; assumption].
Qed.

Lemma subseq_prefix {A} (l rest : list A) : subseq l (l ++ rest).
Proof.
  induction l; simpl.
  - induction rest; [apply subseq_nil | apply subseq_skip; assumption].
  - apply subseq_keep. assumption.
Qed.

Lemma subseq_length {A} (l1 l2 : list A) :
  subseq l1 l2 -> (List.length l1 <= List.length l2)%nat.
Proof. induction 1; simpl; lia. Qed.

Module L2SwitchExtra.
Import L2Switch L2SwitchSpec.
Local Open Scope act_scope.

(** *** Handlers that stop at their first failed send *)

Lemma clean_nil : clean [].
Proof. intros d m r []. Qed.

Lemma clean_app a b : clean a -> clean b -> clean (a ++ b).
Proof.
  intros Ha Hb d m r H. apply in_app_or in H. destruct H; eauto.
Qed.

Lemma clean_log l : clean [Ev_Debug l].
Proof. intros d m r [H | []]. discriminate. Qed.

Lemma clean_err l : clean [Ev_Err l].
Proof. intros d m r [H | []]. discriminate. Qed.

Lemma halts_app a b r : clean a -> halts b r -> halts (a ++ b) r.
Proof.
  intros Ha [Hb | (b' & d & m & e & -> & Hb' & ->)].
  - left. apply clean_app; assumption.
  - right. exists (a ++ b'), d, m, e. rewrite app_assoc.
    split; [reflexivity|]. split; [apply clean_app; assumption | reflexivity].
Qed.

Lemma halts_none evs : halts evs None -> clean evs.
Proof.
  intros [H | (? & ? & ? & ? & _ & _ & H)]; [exact H | discriminate].
Qed.

(** A failed send can only be the last event of a halting run. *)
Lemma halts_failed_last evs r evs1 d m e evs2 :
  halts evs r -> evs = evs1 ++ Ev_Send d m (Some e) :: evs2 ->
  evs2 = [] /\ r = Some e.
Proof.
  intros [Hc | (evs' & d' & m' & e' & E & Hc & ->)] ->.
  - assert (H : Some e = None).
    { apply (Hc d m). apply in_or_app. right. left. reflexivity. }
    discriminate.
  - destruct evs2 as [|x evs2 _] using rev_ind.
    + apply app_inj_tail in E. destruct E as [_ E]. inversion E. auto.
    + rewrite app_comm_cons, app_assoc in E.
      apply app_inj_tail in E. destruct E as [<- _].
      assert (H : Some e = None).
      { apply (Hc d m). apply in_or_app. right. left. reflexivity. }
      discriminate.
Qed.

Lemma follows_nil r : follows [] [] r.
Proof.
  split; [left; apply clean_nil|]. split; [exists []; reflexivity | reflexivity].
Qed.

Section Follow.
Variable w : World.

Lemma runs_send d m :
  runs (follows [(d, m)]) (SendMessage w d m).
Proof.
  intros t. unfold SendMessage. run.
  eexists [_], _. split; [reflexivity|].
  destruct (Send_fails w t d m) as [e|].
  - split.
    + right. exists [], d, m, e. repeat split. apply clean_nil.
    + split; [exists []; reflexivity | discriminate].
  - split.
    + left. intros d' m' r [H | []]. inversion H. reflexivity.
    + split; [exists []; reflexivity | reflexivity].
Qed.

(** [x, err := m; if err != nil { return err }; k x] *)
Lemma runs_try {A} plan1 plan2 (Q : A -> Prop) (m : Act Event (Error + A))
    (k : A -> Act Event (option Error)) :
  runs (fun evs r => follows plan1 evs (err_of r) /\ forall x, r = inr x -> Q x) m ->
  (forall x, Q x -> runs (follows plan2) (k x)) ->
  runs (follows (plan1 ++ plan2))
       (bind m (fun r => match r with inl err => ret (Some err) | inr x => k x end)).
Proof.
  intros Hm Hk. eapply runs_bind; [exact Hm|].
  intros [e|x] evs1 [(Hh & (rest & Hp) & Hn) HQ]; simpl in *.
  - apply runs_ret. rewrite app_nil_r. split; [exact Hh|].
    split; [exists (rest ++ plan2); rewrite Hp, app_assoc; reflexivity | discriminate].
  - specialize (Hn eq_refl). apply halts_none in Hh.
    eapply runs_weaken; [apply Hk, HQ; reflexivity|].
    intros evs2 r (Hh2 & (rest2 & Hp2) & Hn2). cbv beta. unfold follows.
    rewrite sent_app, Hn. split; [apply halts_app; assumption|]. split.
    + exists rest2. rewrite Hp2, app_assoc. reflexivity.
    + intros Hr. rewrite (Hn2 Hr). reflexivity.
Qed.

Lemma runs_factory {A} plan c (fresh : A) (k : A -> Act Event (option Error)) :
  runs (follows plan) (k fresh) ->
  runs (follows plan)
       (bind (factory_new w c fresh)
             (fun r => match r with inl err => ret (Some err) | inr x => k x end)).
Proof.
  intros Hk. change plan with ([] ++ plan).
  apply runs_try with (Q := fun x => x = fresh).
  - intros t. unfold factory_new. run.
    destruct (Factory_fails w t c) as [e|]; eexists [], _;
      (split; [rewrite app_nil_r; reflexivity|]);
      (split; [apply follows_nil | congruence]).
  - intros x ->. exact Hk.
Qed.

(** [if err := m; err != nil { return err }; k] *)
Lemma runs_must plan1 plan2 (m k : Act Event (option Error)) :
  runs (follows plan1) m -> runs (follows plan2) k ->
  runs (follows (plan1 ++ plan2))
       (bind m (fun r => match r with Some err => ret (Some err) | None => k end)).
Proof.
  intros Hm Hk. eapply runs_bind; [exact Hm|].
  intros [e|] evs1 (Hh & (rest & Hp) & Hn).
  - apply runs_ret. rewrite app_nil_r. split; [exact Hh|].
    split; [exists (rest ++ plan2); rewrite Hp, app_assoc; reflexivity | discriminate].
  - specialize (Hn eq_refl). apply halts_none in Hh.
    eapply runs_weaken; [exact Hk|].
    intros evs2 r (Hh2 & (rest2 & Hp2) & Hn2). cbv beta. unfold follows.
    rewrite sent_app, Hn. split; [apply halts_app; assumption|]. split.
    + exists rest2. rewrite Hp2, app_assoc. reflexivity.
    + intros Hr. rewrite (Hn2 Hr). reflexivity.
Qed.

Lemma runs_log plan l (k : Act Event (option Error)) :
  runs (follows plan) k ->
  runs (follows plan) (bind (log_Debug l) (fun _ => k)).
Proof.
  intros Hk. eapply runs_bind; [apply runs_emit|].
  intros _ evs1 ->. eapply runs_weaken; [exact Hk|].
  intros evs2 r (Hh & Hp & Hn). simpl.
  split; [apply (halts_app [_]); [apply clean_log | exact Hh]|].
  split; assumption.
Qed.

Lemma installFlow_follows p :
  runs (follows [(device p, Msg_FlowMod (forwardFlow p))]) (installFlow w p).
Proof.
  unfold installFlow, NewMatch, NewAction, NewInstruction, NewFlowMod.
  do 4 apply runs_factory. apply runs_send.
Qed.

Lemma setFlowRule_follows p :
  runs (follows (rule_sends p)) (setFlowRule w p).
Proof.
  unfold setFlowRule. apply (runs_must [_] [_]); apply installFlow_follows.
Qed.

Lemma packetout_follows egress packet :
  runs (follows [(Port_Device egress, Msg_PacketOut (directOut egress packet))])
       (packetout w egress packet).
Proof.
  unfold packetout, NewAction, NewPacketOut.
  do 2 apply runs_factory. apply runs_send.
Qed.

Lemma flood_follows ingress packet :
  runs (follows [(Port_Device ingress, Msg_PacketOut (floodOut ingress packet))])
       (flood w ingress packet).
Proof.
  unfold flood, NewAction, NewPacketOut.
  do 2 apply runs_factory. apply runs_send.
Qed.

Lemma switching_loop_follows p path : forall inPort,
  runs (fun evs r =>
          follows (flat_map rule_sends (loop_rules (ethernet p) inPort path))
                  evs (err_of r) /\
          forall z, r = inr z -> z = last_inPort inPort path)
       (switching_loop w p path inPort).
Proof.
  induction path as [|v rest IH]; intros inPort;
    cbn [switching_loop loop_rules last_inPort flat_map].
  - apply runs_ret. split; [apply follows_nil | congruence].
  - eapply runs_bind; [apply setFlowRule_follows|].
    fold (hop_param (ethernet p) (Port_Device (fst v)) inPort (Port_Number (fst v))).
    intros [e|] evs1 (Hh & (rest1 & Hp) & Hn).
    + apply runs_ret. rewrite app_nil_r. split; [|discriminate].
      split; [exact Hh|]. split; [|discriminate].
      rewrite Hp. rewrite <- app_assoc. eexists. reflexivity.
    + specialize (Hn eq_refl). apply halts_none in Hh.
      eapply runs_weaken; [apply IH|].
      intros evs2 r [(Hh2 & (rest2 & Hp2) & Hn2) Hz]. split; [|exact Hz].
      unfold follows. rewrite sent_app, Hn.
      split; [apply halts_app; assumption|]. split.
      * exists rest2. rewrite Hp2, app_assoc. reflexivity.
      * intros Hr. rewrite (Hn2 Hr). reflexivity.
Qed.

Lemma switching_follows p path :
  Finder_Path w (Device_ID (Port_Device (ingress p)))
                (Device_ID (Port_Device (egress p))) = Some path ->
  path <> [] ->
  runs (follows (switching_sends (ethernet p) (ingress p) (egress p) path (rawPacket p)))
       (switching w p).
Proof.
  intros Hp Hne. unfold switching. rewrite Hp.
  destruct path as [|v rest]; [contradiction|].
  unfold switching_sends. rewrite flat_map_app, <- app_assoc.
  eapply runs_try; [apply switching_loop_follows|].
  intros z ->. cbn [flat_map]. rewrite app_nil_r.
  apply runs_must; [apply setFlowRule_follows | apply packetout_follows].
Qed.

Lemma localSwitching_follows p :
  runs (follows (rule_sends (hop_param (ethernet p) (Port_Device (ingress p))
                               (Port_Number (ingress p)) (Port_Number (egress p)))
                 ++ [(Port_Device (egress p),
                      Msg_PacketOut (directOut (egress p) (rawPacket p)))]))
       (localSwitching w p).
Proof.
  unfold localSwitching.
  apply runs_must; [apply setFlowRule_follows | apply packetout_follows].
Qed.

(** [ProcessPacket] as a whole, for a packet that encodes. *)
Lemma ProcessPacket_follows eth ingress packet :
  MarshalBinary w eth = inr packet ->
  runs (fun evs res =>
          exists r, follows (packet_sends w eth ingress packet) evs r /\
                    (snd res = r \/ exists e, r = Some e /\ snd res = Some (Err_FailedSwitch e)) /\
                    (fst res = false -> snd res <> None))
       (ProcessPacket w eth ingress).
Proof.
  intros Hm. unfold ProcessPacket, packet_sends. rewrite Hm.
  assert (Hflood :
    runs (fun evs res =>
          exists r, follows [(Port_Device ingress, Msg_PacketOut (floodOut ingress packet))] evs r /\
                    (snd res = r \/ exists e, r = Some e /\ snd res = Some (Err_FailedSwitch e)) /\
                    (fst res = false -> snd res <> None))
      (log_Debug (Log_Broadcasting (DstMAC eth));;
       err <- flood w ingress packet;; ret (true, err))).
  { eapply runs_bind; [apply runs_emit|]. intros _ evs0 ->.
    eapply runs_bind; [apply flood_follows|]. intros r evs1 (Hh & Hp & Hn).
    apply runs_ret. rewrite app_nil_r. exists r. simpl. split.
    - split; [apply (halts_app [_]); [apply clean_log | exact Hh]|]. split; assumption.
    - split; [left; reflexivity | discriminate]. }
  assert (Hwrap : forall plan (m : Act Event (option Error)),
    runs (follows plan) m ->
    runs (fun evs res =>
          exists r, follows plan evs r /\
                    (snd res = r \/ exists e, r = Some e /\ snd res = Some (Err_FailedSwitch e)) /\
                    (fst res = false -> snd res <> None))
      (err <- m;;
       match err with
       | Some err => ret (false, Some (Err_FailedSwitch err))
       | None => ret (true, None)
       end)).
  { intros plan m Hrun. eapply runs_bind; [exact Hrun|].
    intros [e|] evs1 Hf; apply runs_ret; rewrite app_nil_r; simpl.
    - exists (Some e). split; [exact Hf|]. split; [right; exists e; auto | discriminate].
    - exists None. split; [exact Hf|]. split; [left; reflexivity | discriminate]. }
  destruct (Finder_Node w (DstMAC eth)) as [n|]; [|exact Hflood].
  destruct (isBroadcast eth); [exact Hflood|].
  cbn zeta.
  destruct (Device_ID (Port_Device ingress) =? Device_ID (Port_Device (Node_Port n))).
  - apply Hwrap.
    apply (localSwitching_follows
             {| ethernet := eth; ingress := ingress;
                egress := Node_Port n; rawPacket := packet |}).
  - apply Hwrap.
    destruct (Finder_Path w (Device_ID (Port_Device ingress))
                (Device_ID (Port_Device (Node_Port n)))) as [[|v rest]|] eqn:Ep.
    + unfold switching. cbn [L2Switch.ingress L2Switch.egress L2Switch.ethernet].
      rewrite Ep. eapply runs_bind; [apply runs_emit|]. intros _ evs0 ->.
      apply runs_ret. simpl. split; [left; apply clean_log|].
      split; [exists []; reflexivity | reflexivity].
    + apply (switching_follows
               {| ethernet := eth; ingress := ingress;
                  egress := Node_Port n; rawPacket := packet |} (v :: rest));
        [exact Ep | discriminate].
    + unfold switching. cbn [L2Switch.ingress L2Switch.egress L2Switch.ethernet].
      rewrite Ep. eapply runs_bind; [apply runs_emit|]. intros _ evs0 ->.
      apply runs_ret. simpl. split; [left; apply clean_log|].
      split; [exists []; reflexivity | reflexivity].
Qed.
(** The same with the returned pair spelled out: a flooded packet returns
    drop = true with the error of [flood] as it is; a switched one returns
    drop = false with the error wrapped, or drop = true and nil. *)
Lemma ProcessPacket_result eth ingress packet :
  MarshalBinary w eth = inr packet ->
  runs (fun evs res =>
          exists r, follows (packet_sends w eth ingress packet) evs r /\
                    res = if floods w eth then (true, r)
                          else match r with
                               | Some e => (false, Some (Err_FailedSwitch e))
                               | None => (true, None)
                               end)
       (ProcessPacket w eth ingress).
Proof.
  intros Hm. unfold ProcessPacket, packet_sends, floods. rewrite Hm.
  assert (Hflood :
    runs (fun evs res =>
          exists r, follows [(Port_Device ingress, Msg_PacketOut (floodOut ingress packet))] evs r /\
                    res = (true, r))
      (log_Debug (Log_Broadcasting (DstMAC eth));;
       err <- flood w ingress packet;; ret (true, err))).
  { eapply runs_bind; [apply runs_emit|]. intros _ evs0 ->.
    eapply runs_bind; [apply flood_follows|]. intros r evs1 (Hh & Hp & Hn).
    apply runs_ret. rewrite app_nil_r. exists r. simpl. split; [|reflexivity].
    split; [apply (halts_app [_]); [apply clean_log | exact Hh]|]. split; assumption. }
  assert (Hwrap : forall plan (m : Act Event (option Error)),
    runs (follows plan) m ->
    runs (fun evs res =>
          exists r, follows plan evs r /\
                    res = match r with
                          | Some e => (false, Some (Err_FailedSwitch e))
                          | None => (true, None)
                          end)
      (err <- m;;
       match err with
       | Some err => ret (false, Some (Err_FailedSwitch err))
       | None => ret (true, None)
       end)).
  { intros plan m Hrun. eapply runs_bind; [exact Hrun|].
    intros [e|] evs1 Hf; apply runs_ret; rewrite app_nil_r.
    - exists (Some e). split; [exact Hf | reflexivity].
    - exists None. split; [exact Hf | reflexivity]. }
  destruct (Finder_Node w (DstMAC eth)) as [n|]; [|exact Hflood].
  destruct (isBroadcast eth); [exact Hflood|].
  cbn zeta.
  destruct (Device_ID (Port_Device ingress) =? Device_ID (Port_Device (Node_Port n))).
  - apply Hwrap.
    apply (localSwitching_follows
             {| ethernet := eth; ingress := ingress;
                egress := Node_Port n; rawPacket := packet |}).
  - apply Hwrap.
    destruct (Finder_Path w (Device_ID (Port_Device ingress))
                (Device_ID (Port_Device (Node_Port n)))) as [[|v rest]|] eqn:Ep.
    + unfold switching. cbn [L2Switch.ingress L2Switch.egress L2Switch.ethernet].
      rewrite Ep. eapply runs_bind; [apply runs_emit|]. intros _ evs0 ->.
      apply runs_ret. simpl. split; [left; apply clean_log|].
      split; [exists []; reflexivity | reflexivity].
    + apply (switching_follows
               {| ethernet := eth; ingress := ingress;
                  egress := Node_Port n; rawPacket := packet |} (v :: rest));
        [exact Ep | discriminate].
    + unfold switching. cbn [L2Switch.ingress L2Switch.egress L2Switch.ethernet].
      rewrite Ep. eapply runs_bind; [apply runs_emit|]. intros _ evs0 ->.
      apply runs_ret. simpl. split; [left; apply clean_log|].
      split; [exists []; reflexivity | reflexivity].
Qed.
End Follow.

Lemma sent_In d m r evs : In (Ev_Send d m r) evs -> In (d, m) (sent evs).
Proof.
  induction evs as [|[| |] evs IH]; simpl; intros H.
  - destruct H.
  - destruct H as [H | H]; [discriminate | auto].
  - destruct H as [H | H]; [discriminate | auto].
  - destruct H as [H | H]; [inversion H; auto | auto].
Qed.

Lemma subseq_nil_l {A} (l : list A) : subseq [] l.
Proof. induction l; [apply subseq_nil | apply subseq_skip; assumption]. Qed.

Lemma follows_subseq plan evs r : follows plan evs r -> subseq (sent evs) plan.
Proof. intros (_ & (rest & ->) & _). apply subseq_prefix. Qed.

Section Follow2.
Variable w : World.

Lemma removeFlow_follows d m :
  runs (follows [(d, Msg_FlowMod (deleteFlow m))]) (removeFlow w d m).
Proof.
  unfold removeFlow, NewFlowMod.
  apply runs_log. apply runs_factory. apply runs_send.
Qed.

Lemma removeFlowRules_loop_follows mac ds :
  runs (follows (node_deletes mac ds)) (removeFlowRules_loop w ds mac).
Proof.
  induction ds as [|d ds IH]; cbn [removeFlowRules_loop].
  - apply runs_ret. apply follows_nil.
  - unfold NewMatch. apply runs_log. apply runs_factory.
    apply (runs_must [_]); [apply removeFlow_follows|].
    apply runs_factory.
    apply (runs_must [_]); [apply removeFlow_follows | exact IH].
Qed.

Lemma removeAllFlows_loop_subseq m ds :
  runs (fun evs _ => subseq (sent evs) (map (fun d => (d, Msg_FlowMod (deleteFlow m))) ds))
       (removeAllFlows_loop w ds m).
Proof.
  induction ds as [|d ds IH]; cbn [removeAllFlows_loop map].
  - apply runs_ret. apply subseq_nil.
  - eapply runs_bind; [apply removeFlow_follows|].
    intros r evs1 Hf. apply follows_subseq in Hf.
    eapply runs_bind with (R1 := fun evs _ => sent evs = []).
    { destruct r; [eapply runs_weaken; [apply runs_emit|]; intros ? ? ->; reflexivity
                  | apply runs_ret; reflexivity]. }
    intros u2 evs2 H2. eapply runs_weaken; [exact IH|].
    intros evs3 u3 H3. cbv beta. rewrite !sent_app, H2. simpl.
    apply (subseq_app _ _ [_]); assumption.
Qed.

Lemma cleanup_loop_subseq ns :
  runs (fun evs _ =>
          subseq (sent evs)
                 (flat_map (fun n => node_deletes (Node_MAC n) (Finder_Devices w)) ns))
       (cleanup_loop w ns).
Proof.
  induction ns as [|n ns IH]; cbn [cleanup_loop flat_map].
  - apply runs_ret. apply subseq_nil.
  - eapply runs_bind; [apply runs_emit|]. intros _ evs0 ->.
    eapply runs_bind; [apply removeFlowRules_loop_follows|].
    intros r evs1 Hf. apply follows_subseq in Hf.
    eapply runs_bind with (R1 := fun evs _ => sent evs = []).
    { destruct r; [eapply runs_weaken; [apply runs_emit|]; intros ? ? ->; reflexivity
                  | apply runs_ret; reflexivity]. }
    intros u2 evs2 H2. eapply runs_weaken; [exact IH|].
    intros evs3 u3 H3. cbv beta. rewrite !sent_app, H2. simpl.
    apply subseq_app; assumption.
Qed.

Lemma cleanup_subseq port :
  runs (fun evs _ => subseq (sent evs) (cleanup_sends w port)) (cleanup w port).
Proof.
  unfold cleanup, cleanup_sends.
  eapply runs_bind; [apply runs_emit|]. intros _ evs0 ->.
  destruct (Finder_IsEdge w port).
  - unfold removeAllFlows, NewMatch.
    eapply runs_bind; [apply runs_emit|]. intros _ evs1 ->.
    eapply runs_bind with (R1 := fun evs r => evs = [] /\ forall x, r = inr x -> x = fresh_Match).
    { intros t. unfold factory_new. run.
      destruct (Factory_fails w t Call_NewMatch); eexists [], _;
        (split; [rewrite app_nil_r; reflexivity|]); (split; [reflexivity | congruence]). }
    intros [e|x] evs2 [-> Hx].
    + apply runs_ret. simpl. apply subseq_nil_l.
    + rewrite (Hx x eq_refl).
      eapply runs_bind; [apply removeAllFlows_loop_subseq|].
      intros u3 evs3 H3. apply runs_ret. simpl. rewrite app_nil_r. exact H3.
  - eapply runs_bind; [apply cleanup_loop_subseq|].
    intros u1 evs1 H1. apply runs_ret. simpl. rewrite app_nil_r. exact H1.
Qed.
End Follow2.

(** *** Results when nothing fails *)
Section NoFailure.
Variable w : World.
Hypothesis Hfac : factory_ok w.
Hypothesis Hsend : sends_ok w.

Lemma setFlowRule_nil p t : fst (setFlowRule w p t) = None.
Proof.
  unfold setFlowRule, bind.
  rewrite installFlow_run, Hsend by assumption.
  rewrite installFlow_run, Hsend by assumption. reflexivity.
Qed.

Lemma packetout_nil egress packet t : fst (packetout w egress packet t) = None.
Proof. rewrite packetout_run by assumption. apply Hsend. Qed.

Lemma switching_loop_inr p path : forall inPort t,
  exists z, fst (switching_loop w p path inPort t) = inr z.
Proof.
  induction path as [|v rest IH]; intros inPort t; cbn [switching_loop].
  - exists inPort. reflexivity.
  - unfold bind.
    match goal with |- context [setFlowRule w ?q t] =>
      pose proof (setFlowRule_nil q t) as H;
      destruct (setFlowRule w q t) as [r t1] end.
    simpl in H. subst r. apply IH.
Qed.

Lemma switching_nil p t : fst (switching w p t) = None.
Proof.
  unfold switching.
  destruct (Finder_Path w _ _) as [[|v rest]|]; try reflexivity.
  unfold bind.
  destruct (switching_loop_inr p (v :: rest) (Port_Number (ingress p)) t) as [z Hz].
  destruct (switching_loop w p (v :: rest) (Port_Number (ingress p)) t) as [r t1].
  simpl in Hz. subst r.
  match goal with |- context [setFlowRule w ?q t1] =>
    pose proof (setFlowRule_nil q t1) as H;
    destruct (setFlowRule w q t1) as [r t2] end.
  simpl in H. subst r. apply packetout_nil.
Qed.

Lemma localSwitching_nil p t : fst (localSwitching w p t) = None.
Proof.
  unfold localSwitching, bind.
  match goal with |- context [setFlowRule w ?q t] =>
    pose proof (setFlowRule_nil q t) as H;
    destruct (setFlowRule w q t) as [r t2] end.
  simpl in H. subst r. apply packetout_nil.
Qed.

Lemma ProcessPacket_nil eth ingress packet t :
  MarshalBinary w eth = inr packet ->
  fst (ProcessPacket w eth ingress t) = (true, None).
Proof.
  intros Hm. unfold ProcessPacket. rewrite Hm.
  assert (Hflood : fst ((log_Debug (Log_Broadcasting (DstMAC eth));;
                        err <- flood w ingress packet;; ret (true, err))%act t)
                   = (true, None)).
  { unfold bind, log_Debug, emit. rewrite flood_run, Hsend by assumption. reflexivity. }
  destruct (Finder_Node w (DstMAC eth)) as [n|]; [|exact Hflood].
  destruct (isBroadcast eth); [exact Hflood|].
  cbn zeta. unfold bind.
  destruct (Device_ID (Port_Device ingress) =? Device_ID (Port_Device (Node_Port n))).
  - match goal with |- context [localSwitching w ?q t] =>
      pose proof (localSwitching_nil q t) as H;
      destruct (localSwitching w q t) as [r t2] end.
    simpl in H. subst r. reflexivity.
  - match goal with |- context [switching w ?q t] =>
      pose proof (switching_nil q t) as H;
      destruct (switching w q t) as [r t2] end.
    simpl in H. subst r. reflexivity.
Qed.
End NoFailure.

(** X1: when neither the factory nor a send fails, [ProcessPacket] of a
    packet that encodes returns drop = true and a nil error, and the
    messages it sends are exactly [packet_sends]: one flood, or the two
    installs and the packet-out of local switching, or, along a path, two
    installs per hop (out of [v[0]], the next in-port being [v[1]]), two
    on the egress device and the packet-out there; nothing for a missing
    path. *)
Theorem X1_ProcessPacket_sends_plan w eth ingress packet t :
  factory_ok w -> sends_ok w ->
  MarshalBinary w eth = inr packet ->
  fst (ProcessPacket w eth ingress t) = (true, None) /\
  sent (snd (ProcessPacket w eth ingress t)) =
    sent t ++ packet_sends w eth ingress packet.
Proof.
  intros Hf Hs Hm.
  pose proof (ProcessPacket_nil w Hf Hs eth ingress packet t Hm) as Hres.
  split; [exact Hres|].
  destruct (ProcessPacket_follows w eth ingress packet Hm t)
    as (evs & res & E & r & (_ & _ & Hn) & Hr & _).
  rewrite E in Hres |- *. simpl in Hres. subst res. cbn [snd fst] in *.
  rewrite sent_app. f_equal. apply Hn.
  destruct Hr as [<- | (e & _ & H)]; [reflexivity | discriminate].
Qed.

Lemma X1_ProcessPacket_sends_plan_witness :
  let w := Linked.world None in
  let packet := Examples.macD ++ Examples.macS ++ [8; 0] ++ [1; 2; 3] in
  let rule d i o := (d, Msg_FlowMod (forwardFlow (hop_param (Examples.eth Examples.macD) d i o))) in
  fst (ProcessPacket w (Examples.eth Examples.macD) (Examples.port Examples.devA 3) [])
    = (true, None) /\
  sent (snd (ProcessPacket w (Examples.eth Examples.macD) (Examples.port Examples.devA 3) [])) =
    [rule Examples.devA 3 9; rule Examples.devA 3 9;
     rule Examples.devB 9 5; rule Examples.devB 9 5;
     (Examples.devB, Msg_PacketOut (directOut (Examples.port Examples.devB 5) packet))].
Proof.
  intros w packet rule.
  apply (X1_ProcessPacket_sends_plan w (Examples.eth Examples.macD)
           (Examples.port Examples.devA 3) packet []).
  - intros ? ?. reflexivity.
  - intros ? ? ?. reflexivity.
  - reflexivity.
Defined.

(** X2: whatever fails, the messages [ProcessPacket] sends for a packet
    that encodes are a prefix of [packet_sends], in order; it returns a
    nil error only after all of them; and a failed send is the last event
    of the call, its error being the one returned: bare and with
    drop = true when the packet is flooded (unknown or broadcast
    destination), wrapped as a failed switch and with drop = false when it
    is switched. *)
Theorem X2_ProcessPacket_stops_at_failure w eth ingress packet t :
  MarshalBinary w eth = inr packet ->
  exists evs drop err,
    ProcessPacket w eth ingress t = ((drop, err), t ++ evs) /\
    (exists rest, packet_sends w eth ingress packet = sent evs ++ rest) /\
    (err = None -> sent evs = packet_sends w eth ingress packet) /\
    (forall evs1 d m e evs2,
       evs = evs1 ++ Ev_Send d m (Some e) :: evs2 ->
       evs2 = [] /\
       (drop, err) = if floods w eth then (true, Some e)
                     else (false, Some (Err_FailedSwitch e))).
Proof.
  intros Hm.
  destruct (ProcessPacket_result w eth ingress packet Hm t)
    as (evs & [drop err] & E & r & (Hh & Hp & Hn) & Hr).
  exists evs, drop, err.
  split; [exact E|]. split; [exact Hp|]. split.
  - intros ->. apply Hn.
    destruct (floods w eth); [congruence|].
    destruct r; [discriminate | reflexivity].
  - intros evs1 d m e evs2 Hsplit.
    destruct (halts_failed_last _ _ _ _ _ _ _ Hh Hsplit) as [-> ->].
    split; [reflexivity | exact Hr].
Qed.

Lemma X2_ProcessPacket_stops_at_failure_witness :
  let w := Linked.world (Some 2) in
  let rule d i o := (d, Msg_FlowMod (forwardFlow (hop_param (Examples.eth Examples.macD) d i o))) in
  exists evs,
    ProcessPacket w (Examples.eth Examples.macD) (Examples.port Examples.devA 3) [] =
      ((false, Some (Err_FailedSwitch (Err_External "write failed"))), evs) /\
    sent evs = [rule Examples.devA 3 9; rule Examples.devA 3 9; rule Examples.devB 9 5].
Proof.
  intros w rule.
  destruct (X2_ProcessPacket_stops_at_failure w (Examples.eth Examples.macD)
              (Examples.port Examples.devA 3)
              (Examples.macD ++ Examples.macS ++ [8; 0] ++ [1; 2; 3]) [] eq_refl)
    as (evs & drop & err & E & _).
  exists evs. vm_compute in E. injection E as Hd He Hev. subst.
  split; reflexivity.
Defined.

Lemma packet_sends_shape w eth ingress packet d m :
  In (d, m) (packet_sends w eth ingress packet) ->
  match m with
  | Msg_FlowMod f =>
      exists inPort outPort, f = forwardFlow (hop_param eth d inPort outPort)
  | Msg_PacketOut o => PacketOut_Data o = packet
  end.
Proof.
  assert (Hrule : forall p, (exists i o, p = hop_param eth (device p) i o) ->
            In (d, m) (rule_sends p) ->
            match m with
            | Msg_FlowMod f =>
                exists inPort outPort, f = forwardFlow (hop_param eth d inPort outPort)
            | Msg_PacketOut o => PacketOut_Data o = packet
            end).
  { intros p (i & o & Hp) [H | [H | []]]; inversion H; subst; exists i, o;
      rewrite <- Hp; reflexivity. }
  assert (Hloop : forall path i p, In p (loop_rules eth i path) ->
            exists i o, p = hop_param eth (device p) i o).
  { induction path as [|v rest IH]; intros i p; simpl; [intros []|].
    intros [<- | Hin]; [eexists _, _; reflexivity | eapply IH, Hin]. }
  unfold packet_sends.
  destruct (Finder_Node w (DstMAC eth)) as [n|];
    [destruct (isBroadcast eth)|];
    try (intros [Hin | []]; inversion Hin; subst; reflexivity).
  destruct (_ =? _).
  - intros H. apply in_app_or in H. destruct H as [H | [H | []]].
    + eapply Hrule; [|exact H]. eexists _, _. reflexivity.
    + inversion H; subst. reflexivity.
  - destruct (Finder_Path w _ _) as [[|v rest]|]; [intros [] | | intros []].
    unfold switching_sends. intros H. apply in_app_or in H.
    destruct H as [H | [H | []]].
    + apply in_flat_map in H. destruct H as (p & Hp & H).
      eapply Hrule; [|exact H].
      apply in_app_or in Hp. destruct Hp as [Hp | [<- | []]].
      * eapply Hloop, Hp.
      * eexists _, _. reflexivity.
    + inversion H; subst. reflexivity.
Qed.

(** X3: whatever fails, every flow-mod [ProcessPacket] sends to a device
    is the ADD rule of [installFlow] for that device and the packet's own
    ether-type and addresses (priority 10, idle timeout 30, the device's
    flow table), never a DELETE; and every packet-out carries the bytes
    [MarshalBinary] gave for the packet. *)
Theorem X3_ProcessPacket_only_forwards w eth ingress t :
  exists evs,
    snd (ProcessPacket w eth ingress t) = t ++ evs /\
    forall d m r, In (Ev_Send d m r) evs ->
      match m with
      | Msg_FlowMod f =>
          exists inPort outPort, f = forwardFlow (hop_param eth d inPort outPort)
      | Msg_PacketOut o => MarshalBinary w eth = inr (PacketOut_Data o)
      end.
Proof.
  destruct (MarshalBinary w eth) as [e|packet] eqn:Hm.
  - exists []. unfold ProcessPacket. rewrite Hm.
    split; [symmetry; apply app_nil_r | intros ? ? ? []].
  - destruct (ProcessPacket_follows w eth ingress packet Hm t)
      as (evs & res & E & r & (_ & (rest & Hp) & _) & _).
    exists evs. rewrite E. split; [reflexivity|].
    intros d m r' Hin. apply sent_In in Hin.
    assert (H : In (d, m) (packet_sends w eth ingress packet)).
    { rewrite Hp. apply in_or_app. left. exact Hin. }
    apply packet_sends_shape in H. destruct m; [congruence | exact H].
Qed.

(** X4: [ProcessPacket] returns drop = false only together with an error:
    a nil error always comes with drop = true. When [MarshalBinary] fails,
    its error is returned as it is with drop = false and nothing is
    emitted. *)
Theorem X4_ProcessPacket_drop_and_error w eth ingress t :
  (snd (fst (ProcessPacket w eth ingress t)) = None ->
   fst (fst (ProcessPacket w eth ingress t)) = true) /\
  (forall e, MarshalBinary w eth = inl e ->
     ProcessPacket w eth ingress t = ((false, Some e), t)).
Proof.
  split.
  - destruct (MarshalBinary w eth) as [e|packet] eqn:Hm.
    + unfold ProcessPacket. rewrite Hm. discriminate.
    + destruct (ProcessPacket_follows w eth ingress packet Hm t)
        as (evs & [drop err] & -> & r & _ & _ & Hd).
      cbn [fst snd] in *. intros ->.
      destruct drop; [reflexivity|]. exfalso. apply Hd; reflexivity.
  - intros e Hm. unfold ProcessPacket. rewrite Hm. reflexivity.
Qed.

(** X5: [isBroadcast] holds exactly for the destination address of six
    bytes 0xFF; an address of another length is never a broadcast. *)
Theorem X5_isBroadcast_iff eth :
  isBroadcast eth = true <-> DstMAC eth = [255; 255; 255; 255; 255; 255].
Proof.
  unfold isBroadcast. rewrite Z.eqb_eq. apply bytes_Compare_eq.
Qed.

(** X6: whatever fails, [removeFlowRules] sends a prefix of the DELETEs
    of [node_deletes] (source match then destination match, device by
    device); it returns nil only after all of them were sent and none
    failed; a failed send is its last event and its error is returned. *)
Theorem X6_removeFlowRules_stops_at_failure w mac t :
  exists evs r,
    removeFlowRules w mac t = (r, t ++ evs) /\
    (exists rest, node_deletes mac (Finder_Devices w) = sent evs ++ rest) /\
    (r = None -> sent evs = node_deletes mac (Finder_Devices w) /\ clean evs) /\
    (forall evs1 d m e evs2,
       evs = evs1 ++ Ev_Send d m (Some e) :: evs2 -> evs2 = [] /\ r = Some e).
Proof.
  destruct (removeFlowRules_loop_follows w mac (Finder_Devices w) t)
    as (evs & r & E & Hh & Hp & Hn).
  exists evs, r. split; [exact E|]. split; [exact Hp|]. split.
  - intros ->. split; [apply Hn; reflexivity | apply halts_none, Hh].
  - intros evs1 d m e evs2. apply halts_failed_last. exact Hh.
Qed.

(** X7: [ProcessEvent] does nothing for a status that reports neither
    port-down nor link-down. It returns an error in two cases only, and
    has sent nothing then: the device does not have the port, or the port
    is an inter-switch edge and the factory failed to make the match. *)
Theorem X7_ProcessEvent_errors w device status t :
  (Status_IsPortDown status || Status_IsLinkDown status = false ->
   ProcessEvent w device status t = (None, t)) /\
  (forall e, fst (ProcessEvent w device status t) = Some e ->
   sent (snd (ProcessEvent w device status t)) = sent t /\
   Status_IsPortDown status || Status_IsLinkDown status = true /\
   ((Device_Port w device (Status_Number status) = None /\
     e = Err_PortNotFound (Status_Number status) (Device_ID device)) \/
    (exists port h,
       Device_Port w device (Status_Number status) = Some port /\
       Finder_IsEdge w port = true /\
       Factory_fails w h Call_NewMatch = Some e))).
Proof.
  unfold ProcessEvent. split; [intros ->; reflexivity|]. intros e.
  destruct (Status_IsPortDown status || Status_IsLinkDown status); [|discriminate].
  destruct (Device_Port w device (Status_Number status)) as [port|].
  - unfold cleanup, removeAllFlows. run.
    destruct (Finder_IsEdge w port) eqn:He.
    + match goal with |- context [Factory_fails w ?h Call_NewMatch] =>
        destruct (Factory_fails w h Call_NewMatch) as [e'|] eqn:Ef end.
      * cbn [fst snd]. intros [= <-]. rewrite !sent_app. simpl.
        rewrite !app_nil_r. split; [reflexivity|]. split; [reflexivity|].
        right. eexists port, _. split; [reflexivity|]. split; [exact He | exact Ef].
      * match goal with |- context [removeAllFlows_loop w ?ds ?m ?t1] =>
          destruct (removeAllFlows_loop w ds m t1) end.
        discriminate.
    + match goal with |- context [cleanup_loop w ?ns ?t1] =>
        destruct (cleanup_loop w ns t1) end.
      discriminate.
  - cbn [ret fst snd]. intros [= <-]. split; [reflexivity|]. split; [reflexivity|].
    left. split; reflexivity.
Qed.

(** X8: whatever fails, the messages [cleanup] sends are a subsequence of
    [cleanup_sends], the messages of a cleanup without failure: it sends
    nothing else and nothing out of order, and no more messages than that
    list holds (one DELETE per switch on the edge path, two per node and
    switch otherwise). *)
Theorem X8_cleanup_sends_subsequence w port t :
  exists evs,
    snd (cleanup w port t) = t ++ evs /\
    subseq (sent evs) (cleanup_sends w port) /\
    (List.length (sent evs) <= List.length (cleanup_sends w port))%nat.
Proof.
  destruct (cleanup_subseq w port t) as (evs & r & E & H).
  exists evs. rewrite E. split; [reflexivity|]. split; [exact H|].
  apply subseq_length, H.
Qed.

End L2SwitchExtra.

Module HandlersSpec.
Import Manager Handlers.
Local Open Scope act_scope.

(** ** The send paths on a connected manager *)

Section Connected.
Variables FlowMatch FlowAction Transceiver : Type.
Variable w : World FlowMatch FlowAction Transceiver.

(** X9: on a manager with a transceiver, [RemoveFlowRule] and
    [SendPacketOut] each make exactly one transceiver call and return what
    it returned: [RemoveFlowRule] sends a flow-mod with command DELETE and
    the given match, with no timeout, flag or action set, and
    [SendPacketOut] passes its in-port, actions and packet on unchanged. *)
Theorem X9_send_paths_connected (r : Manager Transceiver) (x : Transceiver)
    (match_ : FlowMatch) (inPort : Z) (actions : list FlowAction)
    (packet : list Z) (t : list (Event FlowMatch FlowAction Transceiver)) :
  openflow r = Some x ->
  let del :=
    {| Mod_Match := match_; Mod_Command := OFPFC_DELETE;
       Mod_IdleTimeout := 0; Mod_HardTimeout := 0;
       Mod_Flags := {| SendFlowRemoved := false; CheckOverlap := false |};
       Mod_Actions := [] |} in
  let r1 := SendFlowModify_fails _ _ _ w t x del in
  let r2 := SendPacketOut_fails _ _ _ w t x inPort actions packet in
  RemoveFlowRule w r match_ t = (r1, t ++ [Ev_SendFlowModify x del r1]) /\
  SendPacketOut w r inPort actions packet t =
    (r2, t ++ [Ev_SendPacketOut x inPort actions packet r2]).
Proof.
  intros Hx del r1 r2. unfold RemoveFlowRule, SendPacketOut. rewrite Hx.
  split; reflexivity.
Qed.

End Connected.

Lemma X9_send_paths_connected_witness :
  let w : World Z Z Z :=
    {| SendFlowModify_fails := fun _ _ _ => Some (Err_External "closed");
       SendPacketOut_fails := fun _ _ _ _ _ => None |} in
  let r : Manager Z := {| openflow := Some 7; DPID := 1; AuxID := 0 |} in
  RemoveFlowRule w r 5 [] =
    (Some (Err_External "closed"),
     [Ev_SendFlowModify 7
        {| Mod_Match := 5; Mod_Command := OFPFC_DELETE;
           Mod_IdleTimeout := 0; Mod_HardTimeout := 0;
           Mod_Flags := {| SendFlowRemoved := false; CheckOverlap := false |};
           Mod_Actions := [] |} (Some (Err_External "closed"))]) /\
  SendPacketOut w r 3 [40] [1; 2] [] =
    (None, [Ev_SendPacketOut 7 3 [40] [1; 2] None]).
Proof.
  intros w r.
  apply (X9_send_paths_connected Z Z Z w r 7 5 3 [40] [1; 2] []).
  reflexivity.
Defined.

(** ** The message handlers *)

Lemma skipn_app_length {A} (l l' : list A) : skipn (List.length l) (l ++ l') = l'.
Proof. induction l; simpl; auto. Qed.

Lemma find_app {A} (f : A -> bool) (l1 l2 : list A) :
  find f (l1 ++ l2) = match find f l1 with Some x => Some x | None => find f l2 end.
Proof.
  induction l1 as [|a l1 IH]; simpl; [reflexivity|].
  destruct (f a); [reflexivity | exact IH].
Qed.

Lemma NO_STP_bits c :
  Z.testbit (Z.lor c OFPPC_NO_STP) 1 = true /\
  forall i, i <> 1 -> Z.testbit (Z.lor c OFPPC_NO_STP) i = Z.testbit c i.
Proof.
  split.
  - rewrite Z.lor_spec. change OFPPC_NO_STP with (2 ^ 1).
    rewrite Z.pow2_bits_true by lia. apply orb_true_r.
  - intros i Hi. rewrite Z.lor_spec. change OFPPC_NO_STP with (2 ^ 1).
    destruct (Z.ltb_spec i 0).
    + rewrite !Z.testbit_neg_r by lia. reflexivity.
    + rewrite Z.pow2_bits_false by lia. apply orb_false_r.
Qed.

Lemma PortMap_setAll_lookup ports : forall m n,
  PortMap_setAll m ports n =
    match find (fun v => Port_Number v =? n) (rev ports) with
    | Some v => Some v
    | None => m n
    end.
Proof.
  induction ports as [|v rest IH]; intros m n; [reflexivity|].
  unfold PortMap_setAll in *. cbn [fold_left rev].
  rewrite IH, find_app. destruct (find _ (rev rest)); [reflexivity|].
  unfold PortMap_set. simpl. rewrite (Z.eqb_sym n).
  destruct (Port_Number v =? n); reflexivity.
Qed.

Section HandlerProofs.
Variable Transceiver : Type.
Variable OFPP_FLOOD : Z.
Variable w : HWorld Transceiver.

Lemma calls_app (a b : list (HEvent Transceiver)) :
  calls (a ++ b) = calls a ++ calls b.
Proof.
  induction a as [|[| | | | |[]|] a IH]; simpl; rewrite ?IH; reflexivity.
Qed.

Lemma in_handler_SendPacketOut r inPort actions packet t :
  in_handler (SendPacketOut (send_world w) r inPort actions packet) t =
  match openflow r with
  | None => (Some ErrDisconnected, t)
  | Some x =>
      let res := SendPacketOut_fails _ _ _ (send_world w) (send_calls t)
                   x inPort actions packet in
      (res, t ++ [H_Send (Ev_SendPacketOut x inPort actions packet res)])
  end.
Proof.
  unfold in_handler, SendPacketOut.
  destruct (openflow r) as [x|].
  - unfold SendPacketOutMessage, bind, history, emit, ret.
    rewrite skipn_app_length. reflexivity.
  - unfold ret. rewrite skipn_all. simpl. rewrite app_nil_r. reflexivity.
Qed.

Lemma in_handler_InstallFlowRule r flow t :
  in_handler (InstallFlowRule (send_world w) r flow) t =
  match openflow r with
  | None => (Some ErrDisconnected, t)
  | Some x =>
      let fmod :=
        {| Mod_Match := Rule_Match flow;
           Mod_Command := OFPFC_ADD;
           Mod_IdleTimeout := Rule_IdleTimeout flow;
           Mod_HardTimeout := Rule_HardTimeout flow;
           Mod_Flags := {| SendFlowRemoved := true; CheckOverlap := true |};
           Mod_Actions := Rule_Actions flow |} in
      let res := SendFlowModify_fails _ _ _ (send_world w) (send_calls t) x fmod in
      (res, t ++ [H_Send (Ev_SendFlowModify x fmod res)])
  end.
Proof.
  unfold in_handler, InstallFlowRule.
  destruct (openflow r) as [x|].
  - unfold SendFlowModifyMessage, bind, history, emit, ret.
    rewrite skipn_app_length. reflexivity.
  - unfold ret. rewrite skipn_all. simpl. rewrite app_nil_r. reflexivity.
Qed.

(** X10: [handlePacketInMessage] always returns nil. On a connected
    manager it makes exactly one transceiver call, a packet-out of the
    message's data with its in-port and the single action OUTPUT(FLOOD),
    whether or not the call fails; on a disconnected one it calls nothing
    and only logs the disconnected error. *)
Theorem X10_handlePacketInMessage_floods r msg t :
  fst (handlePacketInMessage OFPP_FLOOD w r msg t) = None /\
  (forall x, openflow (base r) = Some x ->
     calls (snd (handlePacketInMessage OFPP_FLOOD w r msg t)) =
       calls t ++ [Call_PacketOut (InPort msg) [FlowActionOutput OFPP_FLOOD] (Data msg)]) /\
  (openflow (base r) = None ->
     snd (handlePacketInMessage OFPP_FLOOD w r msg t) =
       t ++ [H_Log (Log_PacketIn msg);
             H_Log (Log_PacketOutFailed ErrDisconnected)]).
Proof.
  unfold handlePacketInMessage, bind, log_Printf, emit.
  rewrite in_handler_SendPacketOut.
  destruct (openflow (base r)) as [x|].
  - cbn zeta.
    destruct (SendPacketOut_fails _ _ _ _ _ _ _ _ _) as [e|];
      (split; [reflexivity|]); (split; [|discriminate]);
      intros x' _; cbn [snd ret]; rewrite !calls_app; simpl;
      rewrite ?app_nil_r; reflexivity.
  - split; [reflexivity|]. split; [discriminate|].
    intros _. cbn [snd ret]. rewrite <- !app_assoc. reflexivity.
Qed.

Lemma logPorts_run ports : forall t : list (HEvent Transceiver),
  logPorts ports t = (tt, t ++ map (fun v => H_Log (Log_Port v)) ports).
Proof.
  induction ports as [|v rest IH]; intros t; cbn [logPorts map].
  - unfold ret. rewrite app_nil_r. reflexivity.
  - unfold bind, log_Printf, emit. rewrite IH, <- app_assoc. reflexivity.
Qed.

Lemma calls_logs (ports : list Port) :
  calls (map (fun v => @H_Log Transceiver (Log_Port v)) ports) = [].
Proof. induction ports; simpl; auto. Qed.

Lemma testBlock_calls x r t :
  openflow (base r) = Some x ->
  exists evs,
    testBlock w x r t = (tt, t ++ evs) /\
    calls evs = [Call_FlowModify test_flowmod;
                 Call_FlowStatsRequest NewFlowMatch;
                 Call_GetConfigRequest] /\
    Forall (fun ev => match ev with
                      | H_PortMod _ _ _ _ _ _ | H_Barrier _ _ | H_PoolAdd _ _ => False
                      | _ => True
                      end) evs.
Proof.
  intros Hx. unfold testBlock. unfold bind at 1.
  rewrite in_handler_InstallFlowRule, Hx. cbn zeta.
  destruct (SendFlowModify_fails _ _ _ _ _ _ _) as [e1|];
    cbv beta iota zeta delta [bind SendFlowStatsRequestMessage
      SendGetConfigRequestMessage log_Printf history emit ret];
    match goal with |- context [FlowStats_fails w ?h x NewFlowMatch] =>
      destruct (FlowStats_fails w h x NewFlowMatch) as [e2|] end;
    match goal with |- context [GetConfig_fails w ?h x] =>
      destruct (GetConfig_fails w h x) as [e3|] end;
    rewrite <- ?app_assoc; eexists; (split; [reflexivity|]);
    (split; [reflexivity | repeat constructor]).
Qed.

Lemma disableSTP_run x ports : forall t,
  exists evs,
    snd (disableSTP w x ports t) = t ++ evs /\
    Forall (stp_event x ports) evs /\
    (exists rest, map stp_call ports = calls evs ++ rest) /\
    match fst (disableSTP w x ports t) with
    | None => calls evs = map stp_call ports
    | Some e => exists evs' n mac c a h,
                  evs = evs' ++ [H_PortMod x n mac c a (Some e)] /\
                  PortMod_fails w h x n mac c a = Some e
    end.
Proof.
  induction ports as [|v rest IH]; intros t; cbn [disableSTP map].
  - exists []. cbn. rewrite app_nil_r. repeat split; [constructor | exists []; reflexivity].
  - cbv beta iota zeta delta [bind SendPortModificationMessage history emit ret].
    match goal with |- context [PortMod_fails w t x ?n ?mac ?c ?a] =>
      destruct (PortMod_fails w t x n mac c a) as [e|] eqn:E end.
    + exists [H_PortMod x (Port_Number v) (Port_MAC v)
                (Z.lor (Port_Config v) OFPPC_NO_STP) (Port_Advertised v) (Some e)].
      cbn [fst snd]. split; [reflexivity|]. split.
      { constructor; [|constructor]. exists v, (Some e). split; [left; reflexivity | reflexivity]. }
      split; [exists (map stp_call rest); reflexivity|].
      exists []. do 5 eexists. split; [reflexivity | exact E].
    + match goal with |- context [disableSTP w x rest ?t1] =>
        destruct (IH t1) as (evs & Ht & Hall & (rest' & Hp) & Hr) end.
      exists (H_PortMod x (Port_Number v) (Port_MAC v)
                (Z.lor (Port_Config v) OFPPC_NO_STP) (Port_Advertised v) None :: evs).
      split; [rewrite Ht, <- app_assoc; reflexivity|]. split.
      { constructor.
        - exists v, None. split; [left; reflexivity | reflexivity].
        - eapply Forall_impl; [|exact Hall].
          intros ev (v' & r & Hin & ->). exists v', r. split; [right; exact Hin | reflexivity]. }
      split; [exists rest'; simpl; rewrite Hp; reflexivity|].
      destruct (fst (disableSTP w x rest _)) as [e|].
      * destruct Hr as (evs' & n & mac & c & a & h & -> & Hh).
        exists (H_PortMod x (Port_Number v) (Port_MAC v)
                  (Z.lor (Port_Config v) OFPPC_NO_STP) (Port_Advertised v) None :: evs'),
               n, mac, c, a, h. split; [reflexivity | exact Hh].
      * simpl. rewrite Hr. reflexivity.
Qed.

(** The handler as a whole. *)
Lemma handleFeaturesReplyMessage_run r msg x t :
  openflow (base r) = Some x ->
  exists res evs,
    handleFeaturesReplyMessage w r msg t = (Some res, t ++ evs) /\
    match res with
    | (Some e, r') =>
        r' = r /\
        (exists rest, map stp_call (FR_Ports msg) ++ [Call_Barrier] = calls evs ++ rest) /\
        (exists evs' h,
           (evs = evs' ++ [H_Barrier x (Some e)] /\ Barrier_fails w h x = Some e) \/
           (exists n mac c a, evs = evs' ++ [H_PortMod x n mac c a (Some e)] /\
                              PortMod_fails w h x n mac c a = Some e)) /\
        Forall (fun ev => stp_event x (FR_Ports msg) ev \/ exists res, ev = H_Barrier x res) evs
    | (None, r') =>
        r' = registered r msg /\
        calls evs = map stp_call (FR_Ports msg)
                    ++ [Call_Barrier;
                        Call_PoolAdd (FR_DPID msg) (AuxID _ (base r));
                        Call_FlowModify test_flowmod;
                        Call_FlowStatsRequest NewFlowMatch;
                        Call_GetConfigRequest] /\
        (forall ev, In ev evs ->
           match ev with
           | H_PortMod _ _ _ _ _ _ => stp_event x (FR_Ports msg) ev
           | _ => True
           end)
    end.
Proof.
  intros Hx. unfold handleFeaturesReplyMessage. rewrite Hx.
  unfold bind at 1.
  destruct (disableSTP_run x (FR_Ports msg) t) as (evs1 & Ht1 & Hall1 & (rest1 & Hp1) & Hr1).
  destruct (disableSTP w x (FR_Ports msg) t) as [r1 t1]. cbn [fst snd] in *. subst t1.
  destruct r1 as [e|]; cbv beta iota in Hr1.
  - exists (Some e, r), evs1. split; [reflexivity|]. split; [reflexivity|].
    split; [exists (rest1 ++ [Call_Barrier]); rewrite Hp1, app_assoc; reflexivity|].
    destruct Hr1 as (evs' & n & mac & c & a & h & -> & Hh).
    split; [exists evs', h; right; exists n, mac, c, a; split; [reflexivity | exact Hh]|].
    eapply Forall_impl; [|exact Hall1]. intros ev H. left. exact H.
  - cbv beta iota zeta delta [SendBarrierRequestMessage bind history emit ret log_Printf].
    destruct (Barrier_fails w (t ++ evs1) x) as [e|] eqn:Eb.
    + exists (Some e, r), (evs1 ++ [H_Barrier x (Some e)]).
      split; [rewrite app_assoc; reflexivity|]. split; [reflexivity|].
      split; [exists []; rewrite calls_app, Hr1, app_nil_r; reflexivity|].
      split; [exists evs1, (t ++ evs1); left; split; [reflexivity | exact Eb]|].
      apply Forall_app. split.
      * eapply Forall_impl; [|exact Hall1]. intros ev H. left. exact H.
      * constructor; [right; eexists; reflexivity | constructor].
    + rewrite logPorts_run.
      match goal with |- context [testBlock w x ?r' ?t1] =>
        destruct (testBlock_calls x r' t1 eq_refl) as (evs3 & -> & Hc3 & Hall3) end.
      eexists (None, _), _. split.
      { rewrite <- !app_assoc. reflexivity. }
      split; [unfold registered; rewrite Hx; reflexivity|]. split.
      { rewrite !calls_app, Hr1, Hc3, calls_logs. reflexivity. }
      intros ev Hin. rewrite !in_app_iff in Hin.
      destruct Hin as [Hin | [Hin | [Hin | [Hin | [Hin | [Hin | [Hin | [Hin | [Hin | Hin]]]]]]]]];
        try (destruct Hin as [<- | []]; exact I).
      * rewrite Forall_forall in Hall1. destruct ev; try exact I. apply Hall1, Hin.
      * apply in_map_iff in Hin. destruct Hin as (v & <- & _). exact I.
      * rewrite Forall_forall in Hall3. specialize (Hall3 _ Hin).
        destruct ev; try exact I. destruct Hall3.
Qed.

(** X11: on a connected manager whose port-mods and barrier request
    succeed, [handleFeaturesReplyMessage] returns nil whatever the later
    calls return, leaves the manager registered with the reply's values,
    and calls in this order: one port-mod per port of the reply (with
    NO_STP added to its config), the barrier request, the registration
    in the pool under the reply's DPID, then the flow-mod of the test
    rule, a flow-statistics request and a configuration request. *)
Theorem X11_handleFeaturesReplyMessage_handshake r msg x t :
  openflow (base r) = Some x ->
  (forall h n mac c a, PortMod_fails w h x n mac c a = None) ->
  (forall h, Barrier_fails w h x = None) ->
  fst (handleFeaturesReplyMessage w r msg t) = Some (None, registered r msg) /\
  calls (snd (handleFeaturesReplyMessage w r msg t)) =
    calls t ++ map stp_call (FR_Ports msg)
    ++ [Call_Barrier;
        Call_PoolAdd (FR_DPID msg) (AuxID _ (base r));
        Call_FlowModify test_flowmod;
        Call_FlowStatsRequest NewFlowMatch;
        Call_GetConfigRequest].
Proof.
  intros Hx Hpm Hb.
  destruct (handleFeaturesReplyMessage_run r msg x t Hx) as ([[e|] r'] & evs & -> & H).
  - destruct H as (_ & _ & (evs' & h & [[_ Hf] | (n & mac & c & a & _ & Hf)]) & _).
    + rewrite Hb in Hf. discriminate.
    + rewrite Hpm in Hf. discriminate.
  - destruct H as (-> & Hc & _). cbn [fst snd]. split; [reflexivity|].
    rewrite calls_app, Hc. reflexivity.
Qed.

(** X12: when [handleFeaturesReplyMessage] returns an error on a connected
    manager, the manager is unchanged and was not added to the pool; the
    calls made are a prefix of the port-mods followed by the barrier
    request, and the last of them is the port-mod or barrier request that
    failed with that error. *)
Theorem X12_handleFeaturesReplyMessage_failure r msg x t e r' :
  openflow (base r) = Some x ->
  fst (handleFeaturesReplyMessage w r msg t) = Some (Some e, r') ->
  r' = r /\
  exists evs,
    snd (handleFeaturesReplyMessage w r msg t) = t ++ evs /\
    (exists rest, map stp_call (FR_Ports msg) ++ [Call_Barrier] = calls evs ++ rest) /\
    (forall dpid auxid, ~ In (Call_PoolAdd dpid auxid) (calls evs)) /\
    (exists evs' last,
       evs = evs' ++ [last] /\
       (last = H_Barrier x (Some e) \/
        exists n mac c a, last = H_PortMod x n mac c a (Some e))).
Proof.
  intros Hx Hres.
  destruct (handleFeaturesReplyMessage_run r msg x t Hx) as ([[e0|] r0] & evs & E & H);
    rewrite E in Hres |- *; cbn [fst snd] in *; [|discriminate].
  injection Hres as -> ->.
  destruct H as (-> & (rest & Hp) & (evs' & h & Hlast) & _).
  split; [reflexivity|]. exists evs. split; [reflexivity|].
  split; [exists rest; exact Hp|]. split.
  - intros dpid auxid Hin.
    assert (H : In (Call_PoolAdd dpid auxid) (map stp_call (FR_Ports msg) ++ [Call_Barrier])).
    { rewrite Hp. apply in_or_app. left. exact Hin. }
    apply in_app_or in H. destruct H as [H | [H | []]]; [|discriminate].
    apply in_map_iff in H. destruct H as (v & H & _). discriminate.
  - destruct Hlast as [[-> _] | (n & mac & c & a & -> & _)].
    + exists evs', (H_Barrier x (Some e)). split; [reflexivity | left; reflexivity].
    + exists evs', (H_PortMod x n mac c a (Some e)).
      split; [reflexivity | right; exists n, mac, c, a; reflexivity].
Qed.

(** X13: whatever fails, every port-mod [handleFeaturesReplyMessage]
    sends is for a port of the reply, with that port's number, MAC and
    advertised features, and a config in which the NO_STP bit (bit 1) is
    set and every other bit is as the switch reported it. *)
Theorem X13_handleFeaturesReplyMessage_sets_NO_STP r msg t :
  exists evs,
    snd (handleFeaturesReplyMessage w r msg t) = t ++ evs /\
    forall x n mac c a res, In (H_PortMod x n mac c a res) evs ->
      exists v, In v (FR_Ports msg) /\
        n = Port_Number v /\ mac = Port_MAC v /\ a = Port_Advertised v /\
        Z.testbit c 1 = true /\
        forall i, i <> 1 -> Z.testbit c i = Z.testbit (Port_Config v) i.
Proof.
  assert (Hstp : forall (x : Transceiver) ev, stp_event x (FR_Ports msg) ev ->
            forall x' n mac c a res, ev = H_PortMod x' n mac c a res ->
            exists v, In v (FR_Ports msg) /\
              n = Port_Number v /\ mac = Port_MAC v /\ a = Port_Advertised v /\
              Z.testbit c 1 = true /\
              forall i, i <> 1 -> Z.testbit c i = Z.testbit (Port_Config v) i).
  { intros x ev (v & r0 & Hin & ->) x' n mac c a res [= <- <- <- <- <- <-].
    exists v. repeat split; try assumption; apply NO_STP_bits. }
  destruct (openflow (base r)) as [x|] eqn:Hx.
  - destruct (handleFeaturesReplyMessage_run r msg x t Hx) as ([[e|] r'] & evs & -> & H);
      exists evs; (split; [reflexivity|]); intros x' n mac c a res Hin.
    + destruct H as (_ & _ & _ & Hall). rewrite Forall_forall in Hall.
      destruct (Hall _ Hin) as [Hs | [res' Hs]]; [|discriminate].
      eapply Hstp; [exact Hs | reflexivity].
    + destruct H as (_ & _ & Hall). specialize (Hall _ Hin).
      eapply Hstp; [exact Hall | reflexivity].
  - exists []. unfold handleFeaturesReplyMessage. rewrite Hx.
    split; [symmetry; apply app_nil_r | intros ? ? ? ? ? ? []].
Qed.

(** X14: after [handleFeaturesReplyMessage] has returned nil, the manager
    keeps its transceiver and auxiliary ID, holds the reply's DPID and
    buffer and table counts, and maps each port number to the last port
    of the reply with that number; a number the reply does not list keeps
    its earlier entry. *)
Theorem X14_handleFeaturesReplyMessage_state r msg x t r' :
  openflow (base r) = Some x ->
  fst (handleFeaturesReplyMessage w r msg t) = Some (None, r') ->
  openflow (base r') = Some x /\
  DPID _ (base r') = FR_DPID msg /\
  AuxID _ (base r') = AuxID _ (base r) /\
  NumBuffers r' = FR_NumBuffers msg /\
  NumTables r' = FR_NumTables msg /\
  forall n,
    Ports r' n =
      match find (fun v => Port_Number v =? n) (rev (FR_Ports msg)) with
      | Some v => Some v
      | None => Ports r n
      end.
Proof.
  intros Hx Hres.
  destruct (handleFeaturesReplyMessage_run r msg x t Hx) as ([[e0|] r0] & evs & E & H);
    rewrite E in Hres; cbn [fst snd] in *; [discriminate|].
  injection Hres as ->. destruct H as (-> & _).
  unfold registered. cbn. repeat split; try assumption.
  intros n. apply PortMap_setAll_lookup.
Qed.
End HandlerProofs.

Lemma X11_handleFeaturesReplyMessage_handshake_witness :
  let h := handleFeaturesReplyMessage (Examples.world None) Examples.connected
             Examples.reply [] in
  fst h = Some (None, registered Examples.connected Examples.reply) /\
  calls (snd h) =
    [Call_PortMod 1 [0; 0; 0; 0; 0; 1] 2 0x20;
     Call_PortMod 2 [0; 0; 0; 0; 0; 2] 0x13 0;
     Call_Barrier;
     Call_PoolAdd 0x0102030405060708 0;
     Call_FlowModify test_flowmod;
     Call_FlowStatsRequest NewFlowMatch;
     Call_GetConfigRequest].
Proof.
  apply (X11_handleFeaturesReplyMessage_handshake Z (Examples.world None)
           Examples.connected Examples.reply 7 []).
  - reflexivity.
  - intros; reflexivity.
  - intros; reflexivity.
Defined.

Lemma X12_handleFeaturesReplyMessage_failure_witness :
  let w := Examples.world (Some (Err_External "timeout")) in
  exists evs,
    snd (handleFeaturesReplyMessage w Examples.connected Examples.reply []) = [] ++ evs /\
    (forall dpid auxid, ~ In (Call_PoolAdd dpid auxid) (calls evs)).
Proof.
  intros w.
  destruct (X12_handleFeaturesReplyMessage_failure Z w Examples.connected Examples.reply 7 []
              (Err_External "timeout") Examples.connected eq_refl eq_refl)
    as (_ & evs & Hs & _ & Hp & _).
  exists evs. split; assumption.
Defined.

Lemma X14_handleFeaturesReplyMessage_state_witness :
  let r' := registered Examples.connected Examples.reply in
  Ports r' 2 = Some Examples.p2 /\ Ports r' 3 = None /\
  DPID _ (base r') = 0x0102030405060708.
Proof.
  intros r'.
  destruct (X14_handleFeaturesReplyMessage_state Z (Examples.world None)
              Examples.connected Examples.reply 7 [] r' eq_refl eq_refl)
    as (_ & Hd & _ & _ & _ & Hp).
  split; [rewrite Hp; reflexivity|]. split; [rewrite Hp; reflexivity | exact Hd].
Defined.

End HandlersSpec.
